(** * liblight/lights.c: the Samsung epicmtd lights HAL

    A shallow embedding of [src/liblight/lights.c].  The C functions are
    written as programs over a small instruction set (mutex lock and
    unlock, one device-file write, load and store of one of the four
    global [led_state] records).  A sequential interpreter [run] gives
    each call its return value, the memory it leaves and the sequence of
    device writes it made; [thread_step] and [exec] run two calls
    concurrently under the mutex, one instruction at a time.

    Logging ([ALOGV], [ALOGD], [ALOGI], [ALOGE]) and the [already_warned]
    flags that only gate logging are left out of the programs; they are
    part of [write_int_os] and [write_str_os], which follow [write_int]
    and [write_str] system call by system call. *)

From Stdlib Require Import ZArith List String Ascii Bool Lia.
From Stdlib Require Import DecimalString.
Import ListNotations.

Local Open Scope string_scope.
Local Open Scope Z_scope.

(** ** Data *)

(** [struct light_state_t] of <hardware/lights.h>, the fields the file
    reads: [color] is an [unsigned int], the others are [int]. *)
Record light_state_t : Type := mk_light_state {
  color      : Z;
  flashMode  : Z;
  flashOnMS  : Z;
  flashOffMS : Z
}.

(** [struct led_state]. *)
Record led_state : Type := mk_led_state {
  enabled   : Z;    (* unsigned int *)
  delay_on  : Z;    (* int *)
  delay_off : Z     (* int *)
}.

(** The four global records; a [slot] is the address of one of them. *)
Inductive slot : Type :=
| battery_red
| battery_blue
| notifications_red
| notifications_blue.

Definition slot_eqb (a b : slot) : bool :=
  match a, b with
  | battery_red, battery_red
  | battery_blue, battery_blue
  | notifications_red, notifications_red
  | notifications_blue, notifications_blue => true
  | _, _ => false
  end.

(** The memory of the four records. *)
Definition leds : Type := slot -> led_state.

(** Static storage is zero-initialised. *)
Definition leds_init : leds := fun _ => mk_led_state 0 0 0.

Definition leds_set (g : leds) (p : slot) (v : led_state) : leds :=
  fun q => if slot_eqb p q then v else g q.

(** Device paths. *)
Definition RED_LED_DIR     : string := "/sys/class/leds/red".
Definition BLUE_LED_DIR    : string := "/sys/class/leds/blue".
Definition LCD_FILE        : string := "/sys/class/backlight/s5p_bl/brightness".
Definition KEYBOARD_FILE   : string := "/sys/devices/platform/s3c-keypad/brightness".
Definition BUTTONS_FILE    : string := "/sys/class/sec/t_key/brightness".
Definition BRIGHTNESS_FILE : string := "/sys/devices/virtual/sec/t_key/touchleds_voltage".

(** ** Programs *)

(** The instructions a handler executes, in continuation style. *)
Inductive prog (A : Type) : Type :=
| Ret      (a : A)
| Lock     (k : prog A)                          (* pthread_mutex_lock(&g_lock) *)
| Unlock   (k : prog A)                          (* pthread_mutex_unlock(&g_lock) *)
| DevWrite (path payload : string) (k : Z -> prog A)
                                                 (* open, write, close; 0 or -errno *)
| GetLed   (p : slot) (k : led_state -> prog A)  (* read *p *)
| SetLed   (p : slot) (v : led_state) (k : prog A). (* write *p *)

Arguments Ret {A} a.
Arguments Lock {A} k.
Arguments Unlock {A} k.
Arguments DevWrite {A} path payload k.
Arguments GetLed {A} p k.
Arguments SetLed {A} p v k.

Fixpoint bind {A B : Type} (p : prog A) (f : A -> prog B) : prog B :=
  match p with
  | Ret a => f a
  | Lock k => Lock (bind k f)
  | Unlock k => Unlock (bind k f)
  | DevWrite path payload k => DevWrite path payload (fun r => bind (k r) f)
  | GetLed s k => GetLed s (fun v => bind (k v) f)
  | SetLed s v k => SetLed s v (bind k f)
  end.

Declare Scope prog_scope.
Delimit Scope prog_scope with prog.
Notation "x <- c1 ;; c2" := (bind c1 (fun x => c2))
  (at level 100, c1 at next level, right associativity) : prog_scope.
Notation "c1 ;; c2" := (bind c1 (fun _ => c2))
  (at level 100, right associativity) : prog_scope.
(** [if ((res = c1) < 0) return res; c2] *)
Notation "'CHECK' c1 ;; c2" :=
  (bind c1 (fun res => if res <? 0 then Ret res else c2))
  (at level 100, c1 at next level, right associativity) : prog_scope.
Local Open Scope prog_scope.

Definition pthread_mutex_lock : prog unit := Lock (Ret tt).
Definition pthread_mutex_unlock : prog unit := Unlock (Ret tt).
Definition load (p : slot) : prog led_state := GetLed p (fun v => Ret v).
Definition store (p : slot) (v : led_state) : prog unit := SetLed p v (Ret tt).

(** ** The functions of lights.c *)

(** [sprintf(buffer, "%d\n", value)]: the decimal digits, a minus sign
    first for a negative value, and a newline. *)
Definition sprintf_d_nl (value : Z) : string :=
  NilZero.string_of_int (Z.to_int value) ++ String "010"%char EmptyString.

(** [write_int] and [write_str] open the path, write the text and close;
    they return 0, or [-errno] when the open or the write fails.  This
    is the device channel: one instruction, whose result the
    environment decides. *)
Definition write_int (path : string) (value : Z) : prog Z :=
  DevWrite path (sprintf_d_nl value) (fun r => Ret r).

Definition write_str (path : string) (str : string) : prog Z :=
  DevWrite path str (fun r => Ret r).

(** Two concrete device channels, used to run the handlers on examples:
    one on which every write succeeds, one on which every write to the
    path [bad] fails with [-errno]. *)
Definition always_ok (path payload : string) (w : unit) : Z * unit := (0, w).

Definition fail_on (bad : string) (errno : Z)
    (path payload : string) (w : unit) : Z * unit :=
  ((if String.eqb path bad then - errno else 0), w).

(** A concrete operating system for examples: the state is the value of
    [errno]; opening a path in [missing] fails with ENOENT (2), any other
    open returns descriptor 3; every write is short by one byte; logging
    leaves the state alone. *)
Definition demo_open (missing : list string) (path : string) (e : Z) : Z * Z :=
  if existsb (String.eqb path) missing then (-1, 2) else (3, e).

Definition demo_write_fd (fd : Z) (buf : string) (e : Z) : Z * Z :=
  (Z.of_nat (String.length buf) - 1, e).

Definition demo_close (fd : Z) (e : Z) : Z := e.

Definition demo_errno (e : Z) : Z := e.

Definition demo_log (msg : string) (e : Z) : Z := e.

(** A memory in which both sources have the red LED enabled, the battery
    steady and the notifications blinking, and only the battery has the
    blue LED enabled. *)
Definition demo_leds : leds :=
  fun p =>
    match p with
    | battery_red => mk_led_state 1 0 0
    | battery_blue => mk_led_state 1 0 0
    | notifications_red => mk_led_state 1 500 500
    | notifications_blue => mk_led_state 0 0 0
    end.

Section Lights.

(** Constants of system headers that are not part of the repository:
    [PATH_MAX] of <limits.h>, and the two flash modes of
    <hardware/lights.h> the file names. *)
Variable PATH_MAX : nat.
Variables LIGHT_FLASH_NONE LIGHT_FLASH_TIMED : Z.

(** [snprintf(path, sizeof(path), "%s/%s", dir, file)]: at most
    [PATH_MAX - 1] characters are kept. *)
Definition df_path (dir file : string) : string :=
  substring 0 (PATH_MAX - 1) (dir ++ "/" ++ file).

Definition write_df_int (dir file : string) (value : Z) : prog Z :=
  write_int (df_path dir file) value.

Definition write_df_str (dir file : string) (str : string) : prog Z :=
  write_str (df_path dir file) str.

Definition rgb_to_brightness (state : light_state_t) : Z :=
  let color := Z.land (color state) 0x00ffffff in
  Z.shiftr (77 * Z.land (Z.shiftr color 16) 0x00ff
            + 150 * Z.land (Z.shiftr color 8) 0x00ff
            + 29 * Z.land color 0x00ff) 8.

(** C's [!!x]. *)
Definition notnot (x : Z) : Z := if x =? 0 then 0 else 1.

(** The [switch] on [state->flashMode]; the [default] label falls
    through into [LIGHT_FLASH_NONE]. *)
Definition flash_delays (state : light_state_t) : Z * Z :=
  if flashMode state =? LIGHT_FLASH_TIMED then (flashOnMS state, flashOffMS state)
  else if flashMode state =? LIGHT_FLASH_NONE then (0, 0)
  else (0, 0).

Definition comp_led_states (red blue : slot) (state : light_state_t) : prog unit :=
  let color := color state in
  let '(delay_on, delay_off) := flash_delays state in
  store red  (mk_led_state (notnot (Z.land (Z.shiftr color 16) 0xff)) delay_on delay_off) ;;
  store blue (mk_led_state (notnot (Z.land color 0xff)) delay_on delay_off).

(** Lines 148-154 of [set_led]: the pointer [state], [None] for [NULL]. *)
Definition select_state (battery notifications : slot) : prog (option slot) :=
  n <- load notifications ;;
  if negb (enabled n =? 0) then Ret (Some notifications)
  else
    b <- load battery ;;
    if negb (enabled b =? 0) then Ret (Some battery)
    else Ret None.

Definition set_led (dir : string) (battery notifications : slot) : prog Z :=
  state <- select_state battery notifications ;;
  match state with
  | Some p =>
      s <- load p ;;
      let delay_on := delay_on s in
      let delay_off := delay_off s in
      if (0 <? delay_on) && (0 <? delay_off) then
        CHECK write_df_str dir "trigger"     "notification" ;;
        CHECK write_df_str dir "brightness"  "255" ;;
        CHECK write_df_str dir "blink_count" "1" ;;
        CHECK write_df_int dir "delay_on"    delay_on ;;
        CHECK write_df_int dir "delay_off"   delay_off ;;
        Ret 0
      else
        CHECK write_df_str dir "trigger"    "none" ;;
        CHECK write_df_str dir "brightness" "255" ;;
        Ret 0
  | None =>
      CHECK write_df_str dir "trigger"    "none" ;;
      CHECK write_df_str dir "brightness" "0" ;;
      Ret 0
  end.

Definition set_light_battery (state : light_state_t) : prog Z :=
  pthread_mutex_lock ;;
  comp_led_states battery_red battery_blue state ;;
  res <- set_led RED_LED_DIR battery_red notifications_red ;;
  res <- (if res >=? 0
          then set_led BLUE_LED_DIR battery_blue notifications_blue
          else Ret res) ;;
  pthread_mutex_unlock ;;
  Ret res.

Definition set_light_notifications (state : light_state_t) : prog Z :=
  pthread_mutex_lock ;;
  comp_led_states notifications_red notifications_blue state ;;
  res <- set_led RED_LED_DIR battery_red notifications_red ;;
  res <- (if res >=? 0
          then set_led BLUE_LED_DIR battery_blue notifications_blue
          else Ret res) ;;
  pthread_mutex_unlock ;;
  Ret res.

Definition set_light_backlight (state : light_state_t) : prog Z :=
  let brightness := rgb_to_brightness state in
  pthread_mutex_lock ;;
  err <- write_int LCD_FILE brightness ;;
  pthread_mutex_unlock ;;
  Ret err.

Definition set_light_keyboard (state : light_state_t) : prog Z :=
  let key_led_control :=
    if negb (Z.land (color state) 0x00ffffff =? 0) then 1 else 2 in
  pthread_mutex_lock ;;
  res <- write_int KEYBOARD_FILE key_led_control ;;
  pthread_mutex_unlock ;;
  Ret res.

Definition set_light_buttons (state : light_state_t) : prog Z :=
  set_light_keyboard state ;;
  let touch_led_control := notnot (Z.land (color state) 0x00ffffff) in
  let brightness := rgb_to_brightness state in
  (if 0 <? brightness then
     pthread_mutex_lock ;;
     write_int BRIGHTNESS_FILE brightness ;;
     pthread_mutex_unlock
   else Ret tt) ;;
  pthread_mutex_lock ;;
  res <- write_int BUTTONS_FILE touch_led_control ;;
  pthread_mutex_unlock ;;
  Ret res.

(** ** Sequential execution *)

(** The device channel is outside the program: any type of device
    states and any behaviour of one open-write-close on a path. *)
Variable world : Type.
Variable sys_write : string -> string -> world -> Z * world.

Inductive event : Type :=
| EvLock
| EvUnlock
| EvWrite (path payload : string) (res : Z).

Record machine : Type := mk_machine {
  mem   : leds;
  sysfs : world;
  trace : list event     (* oldest first *)
}.

Definition log (e : event) (m : machine) : machine :=
  mk_machine (mem m) (sysfs m) (trace m ++ [e]).

Fixpoint run {A : Type} (p : prog A) (m : machine) : A * machine :=
  match p with
  | Ret a => (a, m)
  | Lock k => run k (log EvLock m)
  | Unlock k => run k (log EvUnlock m)
  | DevWrite path payload k =>
      let '(r, w) := sys_write path payload (sysfs m) in
      run (k r) (mk_machine (mem m) w (trace m ++ [EvWrite path payload r]))
  | GetLed p k => run (k (mem m p)) m
  | SetLed p v k => run k (mk_machine (leds_set (mem m) p v) (sysfs m) (trace m))
  end.

(** The function pointer [set_light] that [open_lights] selects. *)
Inductive light_id : Type :=
| BACKLIGHT | KEYBOARD | BUTTONS | BATTERY | NOTIFICATIONS.

Definition set_light (id : light_id) : light_state_t -> prog Z :=
  match id with
  | BACKLIGHT => set_light_backlight
  | KEYBOARD => set_light_keyboard
  | BUTTONS => set_light_buttons
  | BATTERY => set_light_battery
  | NOTIFICATIONS => set_light_notifications
  end.

(** ** The write sequence of section 4.2, in the spec's words *)

(** A planned write: the control file under the LED's directory and the
    text written to it. *)
Definition arbiter_plan (dir : string) (winner : option led_state)
  : list (string * string) :=
  match winner with
  | Some s =>
      if (0 <? delay_on s) && (0 <? delay_off s) then
        [ (df_path dir "trigger", "notification");
          (df_path dir "brightness", "255");
          (df_path dir "blink_count", "1");
          (df_path dir "delay_on", sprintf_d_nl (delay_on s));
          (df_path dir "delay_off", sprintf_d_nl (delay_off s)) ]
      else
        [ (df_path dir "trigger", "none");
          (df_path dir "brightness", "255") ]
  | None =>
      [ (df_path dir "trigger", "none");
        (df_path dir "brightness", "0") ]
  end.

(** "Each write is sequential; the first failure aborts the remaining
    writes for that LED and the failure code is returned immediately." *)
Fixpoint write_until_failure (plan : list (string * string)) (w : world)
  : Z * world * list event :=
  match plan with
  | [] => (0, w, [])
  | (path, payload) :: rest =>
      let '(r, w1) := sys_write path payload w in
      if r <? 0 then (r, w1, [EvWrite path payload r])
      else
        let '(r', w2, evs) := write_until_failure rest w1 in
        (r', w2, EvWrite path payload r :: evs)
  end.

(** The events of the first [length results] planned writes, each with
    its result. *)
Definition writes_of (plan : list (string * string)) (results : list Z)
  : list event :=
  map (fun x : string * string * Z => EvWrite (fst (fst x)) (snd (fst x)) (snd x))
      (combine plan results).

(** The chain of checked writes [set_led] makes for a plan:
    [if ((res = write(...)) < 0) return res;] for each, then [return 0]. *)
Fixpoint check_chain (plan : list (string * string)) : prog Z :=
  match plan with
  | [] => Ret 0
  | (path, payload) :: rest => CHECK write_str path payload ;; check_chain rest
  end.

(** The invariant the data model states for a stored record. *)
Definition delays_unmixed (s : led_state) : Prop :=
  (delay_on s = 0 /\ delay_off s = 0) \/ (0 < delay_on s /\ 0 < delay_off s).

(** ** Two concurrent calls *)

Inductive tid : Type := T1 | T2.

Definition other (t : tid) : tid :=
  match t with T1 => T2 | T2 => T1 end.

Definition tid_eqb (a b : tid) : bool :=
  match a, b with
  | T1, T1 | T2, T2 => true
  | _, _ => false
  end.

(** What the two threads share: the mutex, the four records, the
    devices; and the events so far, each with the thread that made it. *)
Record shared : Type := mk_shared {
  owner  : option tid;
  smem   : leds;
  sworld : world;
  strace : list (tid * event)
}.

(** One instruction of thread [t].  [None]: the thread cannot move (it
    has returned, or it waits for the mutex).  Unlocking a mutex the
    thread does not hold is undefined for a default mutex and is not
    given a step. *)
Definition thread_step (t : tid) (p : prog Z) (s : shared)
  : option (prog Z * shared) :=
  match p with
  | Ret _ => None
  | Lock k =>
      match owner s with
      | None => Some (k, mk_shared (Some t) (smem s) (sworld s)
                                   (strace s ++ [(t, EvLock)]))
      | Some _ => None
      end
  | Unlock k =>
      match owner s with
      | Some u =>
          if tid_eqb u t
          then Some (k, mk_shared None (smem s) (sworld s)
                                  (strace s ++ [(t, EvUnlock)]))
          else None
      | None => None
      end
  | DevWrite path payload k =>
      let '(r, w) := sys_write path payload (sworld s) in
      Some (k r, mk_shared (owner s) (smem s) w
                           (strace s ++ [(t, EvWrite path payload r)]))
  | GetLed p k => Some (k (smem s p), s)
  | SetLed p v k =>
      Some (k, mk_shared (owner s) (leds_set (smem s) p v) (sworld s) (strace s))
  end.

Record conf : Type := mk_conf {
  thr1 : prog Z;
  thr2 : prog Z;
  shr  : shared
}.

Definition thr (c : conf) (t : tid) : prog Z :=
  match t with T1 => thr1 c | T2 => thr2 c end.

Definition sched_step (t : tid) (c : conf) : option conf :=
  match thread_step t (thr c t) (shr c) with
  | Some (p, s) =>
      Some (match t with
            | T1 => mk_conf p (thr2 c) s
            | T2 => mk_conf (thr1 c) p s
            end)
  | None => None
  end.

(** Run a schedule: the list of the threads that move, in order. *)
Fixpoint exec (sched : list tid) (c : conf) : option conf :=
  match sched with
  | [] => Some c
  | t :: rest =>
      match sched_step t c with
      | Some c' => exec rest c'
      | None => None
      end
  end.

Definition start (p1 p2 : prog Z) (g : leds) (w : world) : conf :=
  mk_conf p1 p2 (mk_shared None g w []).

Definition all_by (t : tid) (l : list (tid * event)) : Prop :=
  Forall (fun e => fst e = t) l.

(** All events of [a], then all events of [b]. *)
Definition ordered (a b : tid) (l : list (tid * event)) : Prop :=
  exists la lb, l = (la ++ lb)%list /\ all_by a la /\ all_by b lb.

(** The events of the two calls are not interleaved. *)
Definition serial (l : list (tid * event)) : Prop :=
  ordered T1 T2 l \/ ordered T2 T1 l.

(** The program has returned. *)
Inductive finished : prog Z -> Prop :=
| finished_ret (a : Z) : finished (Ret a).

(** The program is inside its critical section: on every path it
    accesses records and writes devices, unlocks once, and returns. *)
Inductive in_cs : prog Z -> Prop :=
| in_cs_unlock (k : prog Z) : finished k -> in_cs (Unlock k)
| in_cs_write (path payload : string) (k : Z -> prog Z) :
    (forall r, in_cs (k r)) -> in_cs (DevWrite path payload k)
| in_cs_get (p : slot) (k : led_state -> prog Z) :
    (forall v, in_cs (k v)) -> in_cs (GetLed p k)
| in_cs_set (p : slot) (v : led_state) (k : prog Z) :
    in_cs k -> in_cs (SetLed p v k).

(** The whole call is one critical section: it locks first, and holds
    the mutex across every record access and every device write. *)
Inductive one_cs : prog Z -> Prop :=
| one_cs_lock (k : prog Z) : in_cs k -> one_cs (Lock k).

(** Where a thread is in a call that is one critical section. *)
Inductive phase : Type := Idle | Inside | Done.

Definition in_phase (ph : phase) (p : prog Z) : Prop :=
  match ph with
  | Idle => one_cs p
  | Inside => in_cs p
  | Done => finished p
  end.

(** The invariant of two concurrent calls that are each one critical
    section: the mutex is owned by the thread that is inside, a thread
    that has not started has made no event, and the events of the thread
    that is inside come after all events of the other. *)
Definition inv (c : conf) (ph : tid -> phase) : Prop :=
  (forall t, in_phase (ph t) (thr c t))
  /\ (forall t, owner (shr c) = Some t <-> ph t = Inside)
  /\ (forall t, ph t = Idle -> all_by (other t) (strace (shr c)))
  /\ (forall t, ph t = Inside -> ordered (other t) t (strace (shr c)))
  /\ serial (strace (shr c)).

(** [ordered], as a test. *)
Fixpoint orderedb (a b : tid) (l : list (tid * event)) : bool :=
  match l with
  | [] => true
  | e :: l' =>
      if tid_eqb (fst e) a then orderedb a b l'
      else forallb (fun x => tid_eqb (fst x) b) l
  end.

(** The events of one call respect the mutex: every device write is made
    with the mutex held, the mutex is never locked twice, and it is free
    at the end.  [held]: the call holds the mutex before [evs]. *)
Fixpoint lock_ok (held : bool) (evs : list event) : bool :=
  match evs with
  | [] => negb held
  | EvLock :: rest => negb held && lock_ok true rest
  | EvUnlock :: rest => held && lock_ok false rest
  | EvWrite _ _ _ :: rest => held && lock_ok true rest
  end.

(** ** The records a request computes and the record an LED shows *)

(** The records [comp_led_states] stores for a request (lines 132-138). *)
Definition recomputed_red (state : light_state_t) : led_state :=
  mk_led_state (notnot (Z.land (Z.shiftr (color state) 16) 0xff))
               (fst (flash_delays state)) (snd (flash_delays state)).

Definition recomputed_blue (state : light_state_t) : led_state :=
  mk_led_state (notnot (Z.land (color state) 0xff))
               (fst (flash_delays state)) (snd (flash_delays state)).

(** The record [set_led] points [state] at, given the two records it is
    passed (lines 151-154). *)
Definition winner_of (battery notifications : led_state) : option led_state :=
  if negb (enabled notifications =? 0) then Some notifications
  else if negb (enabled battery =? 0) then Some battery
  else None.

(** The writes of one battery or notifications call after the lock: the
    plan of the red LED until a failure, then, if none failed, the plan
    of the blue LED until a failure. *)
Definition write_both (red_plan blue_plan : list (string * string)) (w : world)
  : Z * world * list event :=
  let '(r1, w1, ev1) := write_until_failure red_plan w in
  if r1 <? 0 then (r1, w1, ev1)
  else
    let '(r2, w2, ev2) := write_until_failure blue_plan w1 in
    (r2, w2, (ev1 ++ ev2)%list).

(** ** Concurrent calls against sequential calls *)

(** The sequential machine two threads share: the events without the
    thread that made them. *)
Definition mach (s : shared) : machine :=
  mk_machine (smem s) (sworld s) (map snd (strace s)).

(** Where a call that is one critical section is, read off its next
    instruction. *)
Definition phase_of (p : prog Z) : phase :=
  match p with
  | Lock _ => Idle
  | Ret _ => Done
  | _ => Inside
  end.

(** Two concurrent calls [p T1] and [p T2] started on [m0], each one
    critical section: a call that has started alone is as far as its
    sequential run from [m0]; when both have started, one of them has
    returned what it returns from [m0], and the other is as far as its
    sequential run from the machine the first one left. *)
Definition ser_inv (p : tid -> prog Z) (m0 : machine) (c : conf) : Prop :=
  (forall t, phase_of (thr c t) = Idle -> thr c t = p t)
  /\ (phase_of (thr c T1) = Idle -> phase_of (thr c T2) = Idle ->
      mach (shr c) = m0)
  /\ (forall t,
        phase_of (thr c t) <> Idle -> phase_of (thr c (other t)) = Idle ->
        run (thr c t) (mach (shr c)) = run (p t) m0)
  /\ (phase_of (thr c T1) <> Idle -> phase_of (thr c T2) <> Idle ->
      exists t,
        thr c (other t) = Ret (fst (run (p (other t)) m0))
        /\ run (thr c t) (mach (shr c)) =
           run (p t) (snd (run (p (other t)) m0))).

(** ** [write_int] and [write_str], system call by system call *)

(** The operating system under the device channel: any type of states,
    any behaviour of [open], [write] and [close], the value of [errno],
    and what the logger does to the state. *)
Variable os : Type.
Variable sys_open : string -> os -> Z * os.          (* open(path, O_RDWR): a descriptor, or -1 *)
Variable sys_write_fd : Z -> string -> os -> Z * os. (* write(fd, buf, len): bytes written, or -1 *)
Variable sys_close : Z -> os -> os.                  (* close(fd) *)
Variable errno : os -> Z.
Variable android_log : string -> os -> os.           (* ALOGE(...) *)

Inductive sys_event : Type :=
| SysOpen  (path : string) (fd : Z)
| SysWrite (fd : Z) (buf : string) (amt : Z)
| SysClose (fd : Z)
| SysLog   (msg : string).

(** The state the two functions work on: the operating system, their two
    [static int already_warned], and the system calls made so far. *)
Record io_state : Type := mk_io {
  io_os      : os;
  warned_int : Z;      (* already_warned of write_int *)
  warned_str : Z;      (* already_warned of write_str *)
  io_trace   : list sys_event
}.

Definition write_int_os (path : string) (value : Z) (s : io_state)
  : Z * io_state :=
  let '(fd, o1) := sys_open path (io_os s) in
  if 0 <=? fd then
    let buffer := sprintf_d_nl value in
    let '(amt, o2) := sys_write_fd fd buffer o1 in
    let o3 := sys_close fd o2 in
    ((if amt =? -1 then - errno o3 else 0),
     mk_io o3 (warned_int s) (warned_str s)
           (io_trace s ++ [SysOpen path fd; SysWrite fd buffer amt; SysClose fd])%list)
  else if warned_int s =? 0 then
    let msg := ("write_int failed to open " ++ path ++ String "010"%char "")%string in
    let o2 := android_log msg o1 in
    (- errno o2,
     mk_io o2 1 (warned_str s) (io_trace s ++ [SysOpen path fd; SysLog msg])%list)
  else
    (- errno o1,
     mk_io o1 (warned_int s) (warned_str s) (io_trace s ++ [SysOpen path fd])%list).

(** [write_str] logs under the name of [write_int], as the source does. *)
Definition write_str_os (path : string) (str : string) (s : io_state)
  : Z * io_state :=
  let '(fd, o1) := sys_open path (io_os s) in
  if 0 <=? fd then
    let '(amt, o2) := sys_write_fd fd str o1 in
    let o3 := sys_close fd o2 in
    ((if amt =? -1 then - errno o3 else 0),
     mk_io o3 (warned_int s) (warned_str s)
           (io_trace s ++ [SysOpen path fd; SysWrite fd str amt; SysClose fd])%list)
  else if warned_str s =? 0 then
    let msg := ("write_int failed to open " ++ path ++ String "010"%char "")%string in
    let o2 := android_log msg o1 in
    (- errno o2,
     mk_io o2 (warned_int s) 1 (io_trace s ++ [SysOpen path fd; SysLog msg])%list)
  else
    (- errno o1,
     mk_io o1 (warned_int s) (warned_str s) (io_trace s ++ [SysOpen path fd])%list).

(** A sequence of calls of the two functions. *)
Inductive io_call : Type :=
| CallInt (path : string) (value : Z)
| CallStr (path : string) (str : string).

Definition do_call (s : io_state) (c : io_call) : io_state :=
  match c with
  | CallInt path value => snd (write_int_os path value s)
  | CallStr path str => snd (write_str_os path str s)
  end.

Definition do_calls (cs : list io_call) (s : io_state) : io_state :=
  fold_left do_call cs s.

Definition is_log (e : sys_event) : bool :=
  match e with SysLog _ => true | _ => false end.

(** The system calls keep to one descriptor at a time: a write or a
    close is for the descriptor that is open, a new [open] comes only
    when none is open, and none is open at the end.  [cur]: the open
    descriptor before [evs]. *)
Fixpoint fd_ok (cur : option Z) (evs : list sys_event) : bool :=
  match evs with
  | [] => match cur with None => true | Some _ => false end
  | SysOpen _ fd :: rest =>
      match cur with
      | None => fd_ok (if 0 <=? fd then Some fd else None) rest
      | Some _ => false
      end
  | SysWrite fd _ _ :: rest =>
      match cur with
      | Some d => (d =? fd) && fd_ok cur rest
      | None => false
      end
  | SysClose fd :: rest =>
      match cur with
      | Some d => (d =? fd) && fd_ok None rest
      | None => false
      end
  | SysLog _ :: rest => fd_ok cur rest
  end.

(** The messages logged so far, and whether a flag still allows one. *)
Definition log_count (s : io_state) : nat :=
  List.length (filter is_log (io_trace s)).

Definition unwarned (flag : Z) : nat := if flag =? 0 then 1%nat else 0%nat.

(** ** [open_lights] *)

(** The identifiers of <hardware/lights.h> that [open_lights] compares
    the name with, and [EINVAL] and [HARDWARE_DEVICE_TAG]. *)
Variables LIGHT_ID_BACKLIGHT LIGHT_ID_KEYBOARD LIGHT_ID_BUTTONS
          LIGHT_ID_BATTERY LIGHT_ID_NOTIFICATIONS : string.
Variable EINVAL : Z.
Variable HARDWARE_DEVICE_TAG : Z.





(** ** The mutex, for every pair of handlers, and [open_lights] *)

(** What the scheduler does next: one instruction of a thread, or the
    [pthread_mutex_init(&g_lock, NULL)] that [open_lights] runs on every
    successful open (line 306), which stores the unlocked state into the
    mutex whoever holds it. *)
Inductive action : Type :=
| Run (t : tid)
| Reinit.

Definition reinit (c : conf) : conf :=
  mk_conf (thr1 c) (thr2 c)
          (mk_shared None (smem (shr c)) (sworld (shr c)) (strace (shr c))).

Definition act_step (a : action) (c : conf) : option conf :=
  match a with
  | Run t => sched_step t c
  | Reinit => Some (reinit c)
  end.

Fixpoint exec_open (acts : list action) (c : conf) : option conf :=
  match acts with
  | [] => Some c
  | a :: rest =>
      match act_step a c with
      | Some c' => exec_open rest c'
      | None => None
      end
  end.

(** No [open_lights] runs while the calls are in progress. *)
Definition no_reinit (acts : list action) : bool :=
  forallb (fun a => match a with Run _ => true | Reinit => false end) acts.

(** The events read against the mutex: a lock is taken only when the
    mutex is free, and a device write or an unlock is made only by the
    thread that holds it.  The result is the holder after the events, or
    [None] if an event breaks this. *)
Definition mutex_event (o : option (option tid)) (e : tid * event)
  : option (option tid) :=
  match o with
  | None => None
  | Some cur =>
      match snd e, cur with
      | EvLock, None => Some (Some (fst e))
      | EvUnlock, Some u => if tid_eqb u (fst e) then Some None else None
      | EvWrite _ _ _, Some u => if tid_eqb u (fst e) then Some cur else None
      | _, _ => None
      end
  end.

Definition mutex_run (l : list (tid * event)) : option (option tid) :=
  fold_left mutex_event l (Some None).

(** A program that does not hold the mutex ([outside]) returns or locks;
    one that holds it ([inside]) accesses records and writes devices
    until it unlocks.  Every handler is [outside] when it starts. *)
Inductive outside : prog Z -> Prop :=
| outside_ret (a : Z) : outside (Ret a)
| outside_lock (k : prog Z) : inside k -> outside (Lock k)
with inside : prog Z -> Prop :=
| inside_unlock (k : prog Z) : outside k -> inside (Unlock k)
| inside_write (path payload : string) (k : Z -> prog Z) :
    (forall r, inside (k r)) -> inside (DevWrite path payload k)
| inside_get (p : slot) (k : led_state -> prog Z) :
    (forall v, inside (k v)) -> inside (GetLed p k)
| inside_set (p : slot) (v : led_state) (k : prog Z) :
    inside k -> inside (SetLed p v k).

(** The events of thread [t] are not split by events of the other
    thread: they form one block of the trace. *)
Definition contiguous (t : tid) (l : list (tid * event)) : Prop :=
  exists pre mid post,
    l = (pre ++ mid ++ post)%list
    /\ all_by (other t) pre /\ all_by t mid /\ all_by (other t) post.

(** The mutex is held by the thread that is inside, and the events so
    far fit the mutex. *)
Definition excl_inv (c : conf) : Prop :=
  (forall u, owner (shr c) = Some u -> inside (thr c u))
  /\ (forall u, owner (shr c) <> Some u -> outside (thr c u))
  /\ mutex_run (strace (shr c)) = Some (owner (shr c)).

(** A call that is one critical section, next to any other call: before
    it starts all events are the other thread's, while it is inside its
    events end the trace, and once it has returned they are one block. *)
Definition contig_inv (t : tid) (c : conf) : Prop :=
  in_phase (phase_of (thr c t)) (thr c t)
  /\ match phase_of (thr c t) with
     | Idle => all_by (other t) (strace (shr c))
     | Inside =>
         owner (shr c) = Some t
         /\ exists pre mid,
              strace (shr c) = (pre ++ mid)%list
              /\ all_by (other t) pre /\ all_by t mid
     | Done => contiguous t (strace (shr c))
     end.

(** The events a call adds to the log of system calls that are
    [SysLog]s, and the messages logged by the calls of a sequence that
    satisfy [sel]. *)
Definition call_logged (s : io_state) (c : io_call) : nat :=
  log_count (do_call s c) - log_count s.

Fixpoint logs_by (sel : io_call -> bool) (cs : list io_call) (s : io_state)
  : nat :=
  match cs with
  | [] => 0
  | c :: rest =>
      ((if sel c then call_logged s c else 0) + logs_by sel rest (do_call s c))%nat
  end.

Definition is_int_call (c : io_call) : bool :=
  match c with CallInt _ _ => true | CallStr _ _ => false end.

Definition is_str_call (c : io_call) : bool :=
  match c with CallInt _ _ => false | CallStr _ _ => true end.

(** ** Arithmetic of the colour bytes *)

Lemma land_ff (x : Z) : Z.land x 0xff = x mod 256.
Proof. change 0xff with (Z.ones 8). now rewrite Z.land_ones by lia. Qed.

Lemma land_ffffff (x : Z) : Z.land x 0x00ffffff = x mod 16777216.
Proof. change 0x00ffffff with (Z.ones 24). now rewrite Z.land_ones by lia. Qed.

Lemma shiftr16 (x : Z) : Z.shiftr x 16 = x / 65536.
Proof. now rewrite Z.shiftr_div_pow2 by lia. Qed.

Lemma shiftr8 (x : Z) : Z.shiftr x 8 = x / 256.
Proof. now rewrite Z.shiftr_div_pow2 by lia. Qed.

(** The bytes of [x mod 2^24] are the low three bytes of [x]. *)
Lemma byte2_low24 (x : Z) : (x mod 16777216) / 65536 mod 256 = x / 65536 mod 256.
Proof.
  rewrite (Z.div_mod x 16777216) at 2 by lia.
  replace (16777216 * (x / 16777216) + x mod 16777216)
    with (x mod 16777216 + (x / 16777216 * 256) * 65536) by lia.
  rewrite Z.div_add by lia. now rewrite Z_mod_plus_full.
Qed.

Lemma byte1_low24 (x : Z) : (x mod 16777216) / 256 mod 256 = x / 256 mod 256.
Proof.
  rewrite (Z.div_mod x 16777216) at 2 by lia.
  replace (16777216 * (x / 16777216) + x mod 16777216)
    with (x mod 16777216 + (x / 16777216 * 256 * 256) * 256) by lia.
  rewrite Z.div_add by lia. now rewrite Z_mod_plus_full.
Qed.

Lemma byte0_low24 (x : Z) : (x mod 16777216) mod 256 = x mod 256.
Proof.
  rewrite (Z.div_mod x 16777216) at 2 by lia.
  replace (16777216 * (x / 16777216) + x mod 16777216)
    with (x mod 16777216 + (x / 16777216 * 65536) * 256) by lia.
  now rewrite Z_mod_plus_full.
Qed.

Lemma rgb_to_brightness_bytes (st : light_state_t) :
  rgb_to_brightness st =
  (77 * (color st / 65536 mod 256) + 150 * (color st / 256 mod 256)
   + 29 * (color st mod 256)) / 256.
Proof.
  unfold rgb_to_brightness. cbv zeta.
  rewrite shiftr8, !land_ff, shiftr16, shiftr8, land_ffffff.
  now rewrite byte2_low24, byte1_low24, byte0_low24.
Qed.

Lemma rgb_to_brightness_range (st : light_state_t) :
  0 <= rgb_to_brightness st <= 255.
Proof.
  rewrite rgb_to_brightness_bytes.
  pose proof (Z.mod_pos_bound (color st / 65536) 256 ltac:(lia)).
  pose proof (Z.mod_pos_bound (color st / 256) 256 ltac:(lia)).
  pose proof (Z.mod_pos_bound (color st) 256 ltac:(lia)).
  split; [apply Z.div_pos; lia|].
  apply Z.lt_succ_r. apply Z.div_lt_upper_bound; lia.
Qed.

(** C3.  [rgb_to_brightness] is [(77*R + 150*G + 29*B) >> 8] on the bytes
    R (bits 16-23), G (bits 8-15) and B (bits 0-7) of the colour; bits
    above bit 23 do not change it; the result is in [0,255]. *)
Theorem rgb_to_brightness_luma (st : light_state_t) :
  let R := color st / 2 ^ 16 mod 2 ^ 8 in
  let G := color st / 2 ^ 8 mod 2 ^ 8 in
  let B := color st mod 2 ^ 8 in
  rgb_to_brightness st = Z.shiftr (77 * R + 150 * G + 29 * B) 8
  /\ (forall high : Z,
        rgb_to_brightness
          (mk_light_state (color st + high * 2 ^ 24)
                          (flashMode st) (flashOnMS st) (flashOffMS st))
        = rgb_to_brightness st)
  /\ 0 <= rgb_to_brightness st <= 255.
Proof.
  cbv zeta. change (2 ^ 16) with 65536. change (2 ^ 8) with 256.
  change (2 ^ 24) with 16777216.
  repeat split.
  - now rewrite shiftr8, rgb_to_brightness_bytes.
  - intro high. rewrite !rgb_to_brightness_bytes. cbn [color].
    rewrite <- (byte2_low24 (color st + _)), <- (byte1_low24 (color st + _)),
      <- (byte0_low24 (color st + _)).
    rewrite Z_mod_plus_full.
    now rewrite byte2_low24, byte1_low24, byte0_low24.
  - rewrite rgb_to_brightness_bytes. apply Z.div_pos; [|lia].
    pose proof (Z.mod_pos_bound (color st / 65536) 256).
    pose proof (Z.mod_pos_bound (color st / 256) 256).
    pose proof (Z.mod_pos_bound (color st) 256). lia.
  - rewrite rgb_to_brightness_bytes.
    pose proof (Z.mod_pos_bound (color st / 65536) 256).
    pose proof (Z.mod_pos_bound (color st / 256) 256).
    pose proof (Z.mod_pos_bound (color st) 256).
    apply Z.lt_succ_r. apply Z.div_lt_upper_bound; lia.
Qed.

(** ** Sequential execution: basic facts *)

(** Run the instructions at the head of the program. *)
Ltac run_cbn :=
  repeat progress (unfold log; cbn [bind run sysfs mem trace]).

Lemma run_bind {A B : Type} (p : prog A) (f : A -> prog B) (m : machine) :
  run (bind p f) m = let '(a, m') := run p m in run (f a) m'.
Proof.
  revert m. induction p as [a|k IH|k IH|path payload k IH|s k IH|s v k IH];
    intro m; cbn [bind run]; auto.
  destruct (sys_write path payload (sysfs m)) as [r w]. apply IH.
Qed.

Lemma notnot_byte (x : Z) : notnot (Z.land x 0xff) = if x mod 256 =? 0 then 0 else 1.
Proof. unfold notnot. now rewrite land_ff. Qed.

Lemma leds_set_same (g : leds) (p : slot) (v : led_state) : leds_set g p v p = v.
Proof. unfold leds_set. now destruct p. Qed.

Lemma leds_set_other (g : leds) (p q : slot) (v : led_state) :
  p <> q -> leds_set g p v q = g q.
Proof. unfold leds_set. destruct p, q; cbn; congruence. Qed.

(** What [comp_led_states] leaves in memory; nothing else changes. *)
Lemma run_comp_led_states (red blue : slot) (st : light_state_t) (m : machine) :
  run (comp_led_states red blue st) m =
  (tt, mk_machine
         (leds_set
            (leds_set (mem m) red
               (mk_led_state (notnot (Z.land (Z.shiftr (color st) 16) 0xff))
                             (fst (flash_delays st)) (snd (flash_delays st))))
            blue
            (mk_led_state (notnot (Z.land (color st) 0xff))
                          (fst (flash_delays st)) (snd (flash_delays st))))
         (sysfs m) (trace m)).
Proof.
  unfold comp_led_states. destruct (flash_delays st) as [don doff]. reflexivity.
Qed.

Lemma flash_delays_timed (st : light_state_t) :
  flash_delays st =
  if flashMode st =? LIGHT_FLASH_TIMED then (flashOnMS st, flashOffMS st) else (0, 0).
Proof.
  unfold flash_delays.
  destruct (flashMode st =? LIGHT_FLASH_TIMED); [reflexivity|].
  now destruct (flashMode st =? LIGHT_FLASH_NONE).
Qed.

(** C1.  The arbiter's choice for one LED: the notifications record when
    its [enabled] is non-zero, else the battery record when its [enabled]
    is non-zero, else none.  Only the two [enabled] fields decide: a
    memory with the same flags and any other delays gives the same
    choice. *)
Theorem select_state_priority (battery notifications : slot) (m : machine) :
  let choice := fst (run (select_state battery notifications) m) in
  (enabled (mem m notifications) <> 0 -> choice = Some notifications)
  /\ (enabled (mem m notifications) = 0 -> enabled (mem m battery) <> 0 ->
      choice = Some battery)
  /\ (enabled (mem m notifications) = 0 -> enabled (mem m battery) = 0 ->
      choice = None)
  /\ (forall m' : machine,
        enabled (mem m' notifications) = enabled (mem m notifications) ->
        enabled (mem m' battery) = enabled (mem m battery) ->
        fst (run (select_state battery notifications) m') = choice).
Proof.
  assert (E : forall x : machine,
             fst (run (select_state battery notifications) x) =
             if negb (enabled (mem x notifications) =? 0) then Some notifications
             else if negb (enabled (mem x battery) =? 0) then Some battery
             else None).
  { intro x. unfold select_state, load. cbn [bind run].
    destruct (enabled (mem x notifications) =? 0); cbn [negb run fst bind]; auto.
    destruct (enabled (mem x battery) =? 0); reflexivity. }
  cbv zeta. repeat split.
  - intro Hn. rewrite E. apply Z.eqb_neq in Hn. now rewrite Hn.
  - intros Hn Hb. rewrite E, Hn. apply Z.eqb_neq in Hb. now rewrite Hb.
  - intros Hn Hb. now rewrite E, Hn, Hb.
  - intros m' Hn Hb. now rewrite !E, Hn, Hb.
Qed.

(** C2.  [comp_led_states] stores, in both records, the delay pair
    [(flashOnMS, flashOffMS)] when [flashMode] is [LIGHT_FLASH_TIMED] and
    [(0, 0)] for every other mode; [enabled] of the red record is 1 when
    the red byte (bits 16-23) is non-zero and 0 otherwise, [enabled] of
    the blue record likewise for the blue byte (bits 0-7); replacing the
    green byte by any other byte changes neither flag. *)
Theorem comp_led_states_spec (red blue : slot) (st : light_state_t) (m : machine) :
  red <> blue ->
  let after := fun s => mem (snd (run (comp_led_states red blue s) m)) in
  let delays :=
    if flashMode st =? LIGHT_FLASH_TIMED
    then (flashOnMS st, flashOffMS st) else (0, 0) in
  (delay_on (after st red), delay_off (after st red)) = delays
  /\ (delay_on (after st blue), delay_off (after st blue)) = delays
  /\ enabled (after st red) = (if color st / 2 ^ 16 mod 2 ^ 8 =? 0 then 0 else 1)
  /\ enabled (after st blue) = (if color st mod 2 ^ 8 =? 0 then 0 else 1)
  /\ (forall green : Z,
        let st' :=
          mk_light_state
            (color st + (green mod 2 ^ 8 - color st / 2 ^ 8 mod 2 ^ 8) * 2 ^ 8)
            (flashMode st) (flashOnMS st) (flashOffMS st) in
        enabled (after st' red) = enabled (after st red)
        /\ enabled (after st' blue) = enabled (after st blue)).
Proof.
  intros Hrb. cbv zeta.
  change (2 ^ 16) with 65536. change (2 ^ 8) with 256.
  assert (R : forall s, mem (snd (run (comp_led_states red blue s) m)) red =
            mk_led_state (if color s / 65536 mod 256 =? 0 then 0 else 1)
                         (fst (flash_delays s)) (snd (flash_delays s))).
  { intro s. rewrite run_comp_led_states. cbn [snd mem].
    rewrite leds_set_other by congruence. rewrite leds_set_same.
    now rewrite notnot_byte, shiftr16. }
  assert (B : forall s, mem (snd (run (comp_led_states red blue s) m)) blue =
            mk_led_state (if color s mod 256 =? 0 then 0 else 1)
                         (fst (flash_delays s)) (snd (flash_delays s))).
  { intro s. rewrite run_comp_led_states. cbn [snd mem].
    rewrite leds_set_same. now rewrite notnot_byte. }
  repeat split.
  - rewrite R. cbn [delay_on delay_off]. rewrite <- flash_delays_timed.
    now destruct (flash_delays st).
  - rewrite B. cbn [delay_on delay_off]. rewrite <- flash_delays_timed.
    now destruct (flash_delays st).
  - now rewrite R.
  - now rewrite B.
  - rewrite !R. cbn [enabled color].
    set (c := color st).
    pose proof (Z.mod_pos_bound green 256 ltac:(lia)) as Hg.
    pose proof (Z.mod_pos_bound c 256 ltac:(lia)) as Hb.
    pose proof (Z.mod_pos_bound (c / 256) 256 ltac:(lia)) as HG.
    assert (Hc : c = c mod 256 + 256 * (c / 256 mod 256) + 65536 * (c / 65536)).
    { pose proof (Z.div_mod c 256 ltac:(lia)).
      pose proof (Z.div_mod (c / 256) 256 ltac:(lia)).
      replace (c / 65536) with (c / 256 / 256)
        by (rewrite Z.div_div by lia; reflexivity).
      lia. }
    replace ((c + (green mod 256 - c / 256 mod 256) * 256) / 65536)
      with (c / 65536); [reflexivity|].
    apply Z.div_unique with (r := c mod 256 + 256 * (green mod 256)); lia.
  - rewrite !B. cbn [enabled color].
    replace ((color st + (green mod 256 - color st / 256 mod 256) * 256) mod 256)
      with (color st mod 256); [reflexivity|].
    now rewrite Z_mod_plus_full.
Qed.

(** ** The arbiter's writes *)

(** One checked write: [if ((res = write_str(path, str)) < 0) return res;]. *)
Lemma run_check_write (path payload : string) (k : prog Z) (m : machine) :
  run (CHECK write_str path payload ;; k) m =
  let '(r, w) := sys_write path payload (sysfs m) in
  let m1 := mk_machine (mem m) w (trace m ++ [EvWrite path payload r]) in
  if r <? 0 then (r, m1) else run k m1.
Proof.
  unfold write_str. cbn [bind run].
  destruct (sys_write path payload (sysfs m)) as [r w]. cbn zeta.
  now destruct (r <? 0).
Qed.

Lemma run_check_chain (plan : list (string * string)) (m : machine) :
  run (check_chain plan) m =
  let '(r, w, evs) := write_until_failure plan (sysfs m) in
  (r, mk_machine (mem m) w (trace m ++ evs)).
Proof.
  revert m. induction plan as [|[path payload] rest IH]; intro m.
  - cbn. rewrite app_nil_r. now destruct m.
  - cbn [check_chain write_until_failure]. rewrite run_check_write.
    destruct (sys_write path payload (sysfs m)) as [r w]. cbn zeta.
    destruct (r <? 0); [reflexivity|].
    rewrite IH. cbn [sysfs mem trace].
    destruct (write_until_failure rest w) as [[r' w2] evs].
    now rewrite <- app_assoc.
Qed.

Lemma set_led_chain (dir : string) (battery notifications : slot) (m : machine) :
  run (set_led dir battery notifications) m =
  run (check_chain
         (arbiter_plan dir
            (option_map (mem m) (fst (run (select_state battery notifications) m)))))
      m.
Proof.
  unfold set_led. rewrite run_bind.
  unfold select_state, load. cbn [bind run].
  destruct (enabled (mem m notifications) =? 0); cbn [negb bind run fst option_map].
  - destruct (enabled (mem m battery) =? 0); cbn [negb bind run fst option_map].
    + reflexivity.
    + unfold arbiter_plan.
      destruct ((0 <? delay_on (mem m battery)) && (0 <? delay_off (mem m battery)));
        reflexivity.
  - unfold arbiter_plan.
    destruct ((0 <? delay_on (mem m notifications))
              && (0 <? delay_off (mem m notifications)));
      reflexivity.
Qed.

(** What "abort at the first failure" means for the events and the
    return value. *)
Lemma write_until_failure_spec (plan : list (string * string)) (w : world) :
  let '(r, _, evs) := write_until_failure plan w in
  exists results : list Z,
    evs = writes_of plan results
    /\ (List.length results <= List.length plan)%nat
    /\ (r < 0 ->
        exists before, results = (before ++ [r])%list /\ Forall (fun x => 0 <= x) before)
    /\ (0 <= r ->
        r = 0 /\ List.length results = List.length plan /\ Forall (fun x => 0 <= x) results).
Proof.
  revert w. induction plan as [|[path payload] rest IH]; intro w.
  - cbn. exists []. repeat split; auto; try lia.
  - cbn [write_until_failure].
    destruct (sys_write path payload w) as [r w1].
    destruct (r <? 0) eqn:Hr.
    + apply Z.ltb_lt in Hr. exists [r]. split; [now destruct rest|].
      split; [cbn; lia|]. split; [|lia].
      intros _. exists []. split; auto.
    + apply Z.ltb_ge in Hr. specialize (IH w1).
      destruct (write_until_failure rest w1) as [[r' w2] evs].
      destruct IH as (results & Hevs & Hlen & Hfail & Hok).
      exists (r :: results). repeat split.
      * cbn. now rewrite Hevs.
      * cbn. lia.
      * intro H. destruct (Hfail H) as (before & -> & Hall).
        exists (r :: before). split; auto.
      * apply Hok; assumption.
      * cbn. f_equal. apply Hok; assumption.
      * constructor; [assumption|]. apply Hok; assumption.
Qed.


(** ** The handlers *)

Lemma set_led_mem (dir : string) (battery notifications : slot) (m : machine) :
  mem (snd (run (set_led dir battery notifications) m)) = mem m.
Proof.
  rewrite set_led_chain, run_check_chain.
  now destruct (write_until_failure _ (sysfs m)) as [[r w] evs].
Qed.

(** The body shared by [set_light_battery] and [set_light_notifications],
    after the records have been recomputed. *)
Lemma run_arbitrate_both (m1 : machine) :
  run (res <- set_led RED_LED_DIR battery_red notifications_red ;;
       res <- (if res >=? 0
               then set_led BLUE_LED_DIR battery_blue notifications_blue
               else Ret res) ;;
       pthread_mutex_unlock ;;
       Ret res) m1 =
  let '(red, m2) := run (set_led RED_LED_DIR battery_red notifications_red) m1 in
  if red <? 0 then (red, log EvUnlock m2)
  else
    let '(blue, m3) :=
      run (set_led BLUE_LED_DIR battery_blue notifications_blue) m2 in
    (blue, log EvUnlock m3).
Proof.
  rewrite run_bind.
  destruct (run (set_led RED_LED_DIR battery_red notifications_red) m1)
    as [red m2].
  rewrite run_bind. rewrite Z.geb_leb, Z.ltb_antisym.
  destruct (0 <=? red); cbn [negb].
  - destruct (run (set_led BLUE_LED_DIR battery_blue notifications_blue) m2)
      as [blue m3]. reflexivity.
  - reflexivity.
Qed.

(** C6.  In [set_light_battery] and in [set_light_notifications]: when
    the arbitration of the red LED returns a negative code, the blue LED
    is not arbitrated (the only later event is the unlock) and that code
    is returned; otherwise the value returned is the result of the
    arbitration of the blue LED. *)
Theorem battery_notifications_short_circuit (st : light_state_t) (m : machine) :
  (let m1 := snd (run (comp_led_states battery_red battery_blue st)
                      (log EvLock m)) in
   let '(red, m2) := run (set_led RED_LED_DIR battery_red notifications_red) m1 in
   run (set_light_battery st) m =
   if red <? 0 then (red, log EvUnlock m2)
   else
     let '(blue, m3) :=
       run (set_led BLUE_LED_DIR battery_blue notifications_blue) m2 in
     (blue, log EvUnlock m3))
  /\
  (let m1 := snd (run (comp_led_states notifications_red notifications_blue st)
                      (log EvLock m)) in
   let '(red, m2) := run (set_led RED_LED_DIR battery_red notifications_red) m1 in
   run (set_light_notifications st) m =
   if red <? 0 then (red, log EvUnlock m2)
   else
     let '(blue, m3) :=
       run (set_led BLUE_LED_DIR battery_blue notifications_blue) m2 in
     (blue, log EvUnlock m3)).
Proof.
  split; cbv zeta.
  - pose proof (run_arbitrate_both
                  (snd (run (comp_led_states battery_red battery_blue st)
                            (log EvLock m)))) as H.
    destruct (run (set_led RED_LED_DIR battery_red notifications_red) _)
      as [red m2].
    unfold set_light_battery, pthread_mutex_lock. cbn [bind run].
    rewrite run_bind.
    destruct (run (comp_led_states battery_red battery_blue st) (log EvLock m))
      as [[] m1].
    exact H.
  - pose proof (run_arbitrate_both
                  (snd (run (comp_led_states notifications_red notifications_blue st)
                            (log EvLock m)))) as H.
    destruct (run (set_led RED_LED_DIR battery_red notifications_red) _)
      as [red m2].
    unfold set_light_notifications, pthread_mutex_lock. cbn [bind run].
    rewrite run_bind.
    destruct (run (comp_led_states notifications_red notifications_blue st)
                  (log EvLock m)) as [[] m1].
    exact H.
Qed.

(** The low three bytes of the colour are all zero exactly when
    [color & 0x00ffffff] is zero. *)
Lemma low24_zero (c : Z) :
  (Z.land c 0x00ffffff =? 0) =
  (c / 65536 mod 256 =? 0) && (c / 256 mod 256 =? 0) && (c mod 256 =? 0).
Proof.
  rewrite land_ffffff.
  rewrite <- (byte2_low24 c), <- (byte1_low24 c), <- (byte0_low24 c).
  pose proof (Z.mod_pos_bound c 16777216 ltac:(lia)) as Hx.
  set (x := c mod 16777216) in *.
  pose proof (Z.div_mod x 256 ltac:(lia)).
  pose proof (Z.div_mod (x / 256) 256 ltac:(lia)).
  pose proof (Z.mod_pos_bound x 256 ltac:(lia)).
  pose proof (Z.mod_pos_bound (x / 256) 256 ltac:(lia)).
  assert (Hd : x / 65536 = x / 256 / 256) by (now rewrite Z.div_div by lia).
  assert (0 <= x / 256 / 256 < 256).
  { split; [apply Z.div_pos; [apply Z.div_pos|]; lia|].
    apply Z.div_lt_upper_bound; [lia|]. apply Z.div_lt_upper_bound; lia. }
  rewrite Hd, (Z.mod_small (x / 256 / 256)) by lia.
  destruct (Z.eqb_spec x 0), (Z.eqb_spec (x / 256 / 256) 0),
    (Z.eqb_spec ((x / 256) mod 256) 0), (Z.eqb_spec (x mod 256) 0);
    cbn [andb]; try reflexivity; lia.
Qed.

(** C8.  [set_light_keyboard] makes one write, to the keyboard control:
    1 when one of the low three colour bytes is non-zero, 2 otherwise;
    it returns the result of that write. *)
Theorem set_light_keyboard_code (st : light_state_t) (m : machine) :
  let code :=
    if (color st / 2 ^ 16 mod 2 ^ 8 =? 0) && (color st / 2 ^ 8 mod 2 ^ 8 =? 0)
       && (color st mod 2 ^ 8 =? 0)
    then 2 else 1 in
  let '(res, w) := sys_write KEYBOARD_FILE (sprintf_d_nl code) (sysfs m) in
  run (set_light_keyboard st) m =
  (res, mk_machine (mem m) w
          (trace m ++ [EvLock; EvWrite KEYBOARD_FILE (sprintf_d_nl code) res;
                       EvUnlock])).
Proof.
  cbv zeta. change (2 ^ 16) with 65536. change (2 ^ 8) with 256.
  unfold set_light_keyboard, pthread_mutex_lock, pthread_mutex_unlock, write_int.
  rewrite low24_zero.
  set (z := (color st / 65536 mod 256 =? 0) && _ && _).
  replace (if negb z then 1 else 2) with (if z then 2 else 1) by now destruct z.
  run_cbn.
  destruct (sys_write KEYBOARD_FILE _ (sysfs m)) as [res w].
  run_cbn. now rewrite <- !app_assoc.
Qed.

(** C7.  [set_light_buttons] first runs [set_light_keyboard] and drops
    its result; it writes [rgb_to_brightness] to the touch-LED voltage
    control only when that brightness is greater than 0, and drops that
    result too; it then writes the flag (1 when one of the low three
    colour bytes is non-zero, else 0) to the buttons control, whatever
    the earlier writes returned, and returns the result of this last
    write. *)
Theorem set_light_buttons_result (st : light_state_t) (m : machine) :
  let flag :=
    if (color st / 2 ^ 16 mod 2 ^ 8 =? 0) && (color st / 2 ^ 8 mod 2 ^ 8 =? 0)
       && (color st mod 2 ^ 8 =? 0)
    then 0 else 1 in
  let brightness := rgb_to_brightness st in
  let '(_, m1) := run (set_light_keyboard st) m in
  let '(volt, w2) :=
    sys_write BRIGHTNESS_FILE (sprintf_d_nl brightness) (sysfs m1) in
  let m2 :=
    if 0 <? brightness
    then mk_machine (mem m1) w2
           (trace m1 ++ [EvLock;
                         EvWrite BRIGHTNESS_FILE (sprintf_d_nl brightness) volt;
                         EvUnlock])
    else m1 in
  let '(res, w3) := sys_write BUTTONS_FILE (sprintf_d_nl flag) (sysfs m2) in
  run (set_light_buttons st) m =
  (res, mk_machine (mem m2) w3
          (trace m2 ++ [EvLock; EvWrite BUTTONS_FILE (sprintf_d_nl flag) res;
                        EvUnlock])).
Proof.
  cbv zeta. change (2 ^ 16) with 65536. change (2 ^ 8) with 256.
  unfold set_light_buttons. rewrite run_bind.
  destruct (run (set_light_keyboard st) m) as [kbd m1].
  unfold notnot. rewrite low24_zero.
  set (z := (color st / 65536 mod 256 =? 0) && _ && _).
  destruct (sys_write BRIGHTNESS_FILE (sprintf_d_nl (rgb_to_brightness st))
                      (sysfs m1)) as [volt w2] eqn:Ev.
  unfold pthread_mutex_lock, pthread_mutex_unlock, write_int.
  destruct (0 <? rgb_to_brightness st).
  - run_cbn. rewrite Ev. run_cbn.
    destruct (sys_write BUTTONS_FILE (sprintf_d_nl (if z then 0 else 1)) w2)
      as [res w3].
    run_cbn. now rewrite <- !app_assoc.
  - run_cbn.
    destruct (sys_write BUTTONS_FILE (sprintf_d_nl (if z then 0 else 1))
                        (sysfs m1)) as [res w3].
    run_cbn. now rewrite <- !app_assoc.
Qed.

(** The runs of [set_light_keyboard] and [set_light_buttons], for use in
    the proofs below. *)
Lemma run_set_light_keyboard (st : light_state_t) (m : machine) :
  let code :=
    if (color st / 2 ^ 16 mod 2 ^ 8 =? 0) && (color st / 2 ^ 8 mod 2 ^ 8 =? 0)
       && (color st mod 2 ^ 8 =? 0)
    then 2 else 1 in
  let '(res, w) := sys_write KEYBOARD_FILE (sprintf_d_nl code) (sysfs m) in
  run (set_light_keyboard st) m =
  (res, mk_machine (mem m) w
          (trace m ++ [EvLock; EvWrite KEYBOARD_FILE (sprintf_d_nl code) res;
                       EvUnlock])).
Proof.
  cbv zeta. change (2 ^ 16) with 65536. change (2 ^ 8) with 256.
  unfold set_light_keyboard, pthread_mutex_lock, pthread_mutex_unlock, write_int.
  rewrite low24_zero.
  set (z := (color st / 65536 mod 256 =? 0) && _ && _).
  replace (if negb z then 1 else 2) with (if z then 2 else 1) by now destruct z.
  run_cbn.
  destruct (sys_write KEYBOARD_FILE _ (sysfs m)) as [res w].
  run_cbn. now rewrite <- !app_assoc.
Qed.

Lemma run_set_light_buttons (st : light_state_t) (m : machine) :
  let flag :=
    if (color st / 2 ^ 16 mod 2 ^ 8 =? 0) && (color st / 2 ^ 8 mod 2 ^ 8 =? 0)
       && (color st mod 2 ^ 8 =? 0)
    then 0 else 1 in
  let brightness := rgb_to_brightness st in
  let '(_, m1) := run (set_light_keyboard st) m in
  let '(volt, w2) :=
    sys_write BRIGHTNESS_FILE (sprintf_d_nl brightness) (sysfs m1) in
  let m2 :=
    if 0 <? brightness
    then mk_machine (mem m1) w2
           (trace m1 ++ [EvLock;
                         EvWrite BRIGHTNESS_FILE (sprintf_d_nl brightness) volt;
                         EvUnlock])
    else m1 in
  let '(res, w3) := sys_write BUTTONS_FILE (sprintf_d_nl flag) (sysfs m2) in
  run (set_light_buttons st) m =
  (res, mk_machine (mem m2) w3
          (trace m2 ++ [EvLock; EvWrite BUTTONS_FILE (sprintf_d_nl flag) res;
                        EvUnlock])).
Proof.
  cbv zeta. change (2 ^ 16) with 65536. change (2 ^ 8) with 256.
  unfold set_light_buttons. rewrite run_bind.
  destruct (run (set_light_keyboard st) m) as [kbd m1].
  unfold notnot. rewrite low24_zero.
  set (z := (color st / 65536 mod 256 =? 0) && _ && _).
  destruct (sys_write BRIGHTNESS_FILE (sprintf_d_nl (rgb_to_brightness st))
                      (sysfs m1)) as [volt w2] eqn:Ev.
  unfold pthread_mutex_lock, pthread_mutex_unlock, write_int.
  destruct (0 <? rgb_to_brightness st).
  - run_cbn. rewrite Ev. run_cbn.
    destruct (sys_write BUTTONS_FILE (sprintf_d_nl (if z then 0 else 1)) w2)
      as [res w3].
    run_cbn. now rewrite <- !app_assoc.
  - run_cbn.
    destruct (sys_write BUTTONS_FILE (sprintf_d_nl (if z then 0 else 1))
                        (sysfs m1)) as [res w3].
    run_cbn. now rewrite <- !app_assoc.
Qed.

Lemma run_arbitrate_both_mem (m1 : machine) :
  mem (snd (run (res <- set_led RED_LED_DIR battery_red notifications_red ;;
                 res <- (if res >=? 0
                         then set_led BLUE_LED_DIR battery_blue notifications_blue
                         else Ret res) ;;
                 pthread_mutex_unlock ;;
                 Ret res) m1)) = mem m1.
Proof.
  rewrite run_arbitrate_both.
  pose proof (set_led_mem RED_LED_DIR battery_red notifications_red m1) as Hr.
  destruct (run (set_led RED_LED_DIR battery_red notifications_red) m1)
    as [red m2]. cbn [snd] in Hr.
  destruct (red <? 0); [exact Hr|].
  pose proof (set_led_mem BLUE_LED_DIR battery_blue notifications_blue m2) as Hb.
  destruct (run (set_led BLUE_LED_DIR battery_blue notifications_blue) m2)
    as [blue m3]. cbn [snd] in Hb |- *. cbn [log mem]. congruence.
Qed.

(** The records after a battery call and after a notifications call. *)
Lemma set_light_battery_mem (st : light_state_t) (m : machine) :
  mem (snd (run (set_light_battery st) m)) =
  mem (snd (run (comp_led_states battery_red battery_blue st) m)).
Proof.
  unfold set_light_battery, pthread_mutex_lock. cbn [bind run].
  rewrite run_bind, !run_comp_led_states.
  now rewrite run_arbitrate_both_mem.
Qed.

Lemma set_light_notifications_mem (st : light_state_t) (m : machine) :
  mem (snd (run (set_light_notifications st) m)) =
  mem (snd (run (comp_led_states notifications_red notifications_blue st) m)).
Proof.
  unfold set_light_notifications, pthread_mutex_lock. cbn [bind run].
  rewrite run_bind, !run_comp_led_states.
  now rewrite run_arbitrate_both_mem.
Qed.

(** C10.  A battery call leaves both notifications records as they were,
    a notifications call leaves both battery records as they were, and
    the backlight, keyboard and buttons calls leave all four records as
    they were. *)
Theorem led_records_frame (st : light_state_t) (m : machine) :
  (mem (snd (run (set_light_battery st) m)) notifications_red
     = mem m notifications_red
   /\ mem (snd (run (set_light_battery st) m)) notifications_blue
     = mem m notifications_blue)
  /\ (mem (snd (run (set_light_notifications st) m)) battery_red
       = mem m battery_red
     /\ mem (snd (run (set_light_notifications st) m)) battery_blue
       = mem m battery_blue)
  /\ mem (snd (run (set_light_backlight st) m)) = mem m
  /\ mem (snd (run (set_light_keyboard st) m)) = mem m
  /\ mem (snd (run (set_light_buttons st) m)) = mem m.
Proof.
  repeat split.
  - now rewrite set_light_battery_mem, run_comp_led_states.
  - now rewrite set_light_battery_mem, run_comp_led_states.
  - now rewrite set_light_notifications_mem, run_comp_led_states.
  - now rewrite set_light_notifications_mem, run_comp_led_states.
  - unfold set_light_backlight, pthread_mutex_lock, pthread_mutex_unlock,
      write_int. run_cbn.
    now destruct (sys_write LCD_FILE _ (sysfs m)).
  - pose proof (run_set_light_keyboard st m) as H. cbv zeta in H.
    destruct (sys_write KEYBOARD_FILE _ (sysfs m)). now rewrite H.
  - pose proof (run_set_light_buttons st m) as H. cbv zeta in H.
    pose proof (run_set_light_keyboard st m) as K. cbv zeta in K.
    destruct (sys_write KEYBOARD_FILE _ (sysfs m)).
    destruct (run (set_light_keyboard st) m) as [kbd m1].
    destruct (sys_write BRIGHTNESS_FILE _ (sysfs m1)).
    destruct (sys_write BUTTONS_FILE _ _).
    rewrite H. cbn [snd mem]. inversion K; subst.
    now destruct (0 <? rgb_to_brightness st).
Qed.

(** C5, as amended.  After a battery call and after a notifications
    call, from a LightSpec with non-negative flash times in which, when
    the mode is [LIGHT_FLASH_TIMED], [flashOnMS] is zero exactly when
    [flashOffMS] is, the two recomputed records have delays that are
    both zero or both positive. *)
Theorem recomputed_delays_unmixed (st : light_state_t) (m : machine) :
  0 <= flashOnMS st -> 0 <= flashOffMS st ->
  (flashMode st = LIGHT_FLASH_TIMED -> (flashOnMS st = 0 <-> flashOffMS st = 0)) ->
  (delays_unmixed (mem (snd (run (set_light_battery st) m)) battery_red)
   /\ delays_unmixed (mem (snd (run (set_light_battery st) m)) battery_blue))
  /\ (delays_unmixed
        (mem (snd (run (set_light_notifications st) m)) notifications_red)
     /\ delays_unmixed
          (mem (snd (run (set_light_notifications st) m)) notifications_blue)).
Proof.
  intros Hon Hoff Hmix.
  rewrite set_light_battery_mem, set_light_notifications_mem,
    !run_comp_led_states.
  cbn [snd mem]. unfold leds_set. cbn [slot_eqb].
  rewrite flash_delays_timed. unfold delays_unmixed.
  destruct (flashMode st =? LIGHT_FLASH_TIMED) eqn:E;
    cbn [fst snd delay_on delay_off].
  - apply Z.eqb_eq in E. specialize (Hmix E). lia.
  - lia.
Qed.

(** ** The mutex *)

(** Decide the shape of a program by running through its branches. *)
Ltac cs_step :=
  cbn [bind];
  match goal with
  | |- in_cs (Unlock _) => apply in_cs_unlock; constructor
  | |- in_cs (DevWrite _ _ _) => apply in_cs_write; intro
  | |- in_cs (GetLed _ _) => apply in_cs_get; intro
  | |- in_cs (SetLed _ _ _) => apply in_cs_set
  | |- in_cs ?p =>
      match p with context [if ?b then _ else _] => destruct b end
  end.

Lemma set_light_one_cs (id : light_id) (st : light_state_t) :
  id <> BUTTONS -> one_cs (set_light id st).
Proof.
  intro Hid. destruct id; try congruence; cbn [set_light].
  - unfold set_light_backlight, pthread_mutex_lock, pthread_mutex_unlock,
      write_int. cbn [bind]. constructor. repeat cs_step.
  - unfold set_light_keyboard, pthread_mutex_lock, pthread_mutex_unlock,
      write_int. cbn [bind]. constructor. repeat cs_step.
  - unfold set_light_battery, comp_led_states, set_led, select_state, load,
      store, pthread_mutex_lock, pthread_mutex_unlock, write_df_str,
      write_df_int, write_str, write_int.
    destruct (flash_delays st) as [don doff].
    cbn [bind]. constructor. repeat cs_step.
  - unfold set_light_notifications, comp_led_states, set_led, select_state,
      load, store, pthread_mutex_lock, pthread_mutex_unlock, write_df_str,
      write_df_int, write_str, write_int.
    destruct (flash_delays st) as [don doff].
    cbn [bind]. constructor. repeat cs_step.
Qed.

(** *** Two calls that are each one critical section *)

Local Open Scope list_scope.

Lemma tid_eqb_refl (t : tid) : tid_eqb t t = true.
Proof. now destruct t. Qed.

Lemma tid_eqb_other (t : tid) : tid_eqb (other t) t = false.
Proof. now destruct t. Qed.

Lemma other_neq (t : tid) : other t <> t.
Proof. now destruct t. Qed.

Lemma other_other (t : tid) : other (other t) = t.
Proof. now destruct t. Qed.

Lemma tid_cases (t u : tid) : u = t \/ u = other t.
Proof. destruct t, u; auto. Qed.

Lemma all_by_snoc (t : tid) (l : list (tid * event)) (e : event) :
  all_by t l -> all_by t (l ++ [(t, e)]).
Proof.
  intro H. apply Forall_app. split; [exact H|]. now repeat constructor.
Qed.

Lemma ordered_snoc (a t : tid) (l : list (tid * event)) (e : event) :
  ordered a t l -> ordered a t (l ++ [(t, e)]).
Proof.
  intros (la & lb & -> & Ha & Hb).
  exists la, (lb ++ [(t, e)])%list. rewrite app_assoc.
  repeat split; auto using all_by_snoc.
Qed.

Lemma all_by_ordered (a t : tid) (l : list (tid * event)) :
  all_by a l -> ordered a t l.
Proof.
  intro H. exists l, []. rewrite app_nil_r. repeat split; auto. constructor.
Qed.

Lemma ordered_serial (t : tid) (l : list (tid * event)) :
  ordered (other t) t l -> serial l.
Proof. unfold serial. destruct t; cbn [other]; auto. Qed.

Lemma sched_step_inv (t : tid) (c c' : conf) :
  sched_step t c = Some c' ->
  exists p s,
    thread_step t (thr c t) (shr c) = Some (p, s)
    /\ thr c' t = p /\ thr c' (other t) = thr c (other t) /\ shr c' = s.
Proof.
  unfold sched_step.
  destruct (thread_step t (thr c t) (shr c)) as [[p s]|]; [|discriminate].
  intro H. injection H as <-. exists p, s. now destruct t.
Qed.

(** A move of the thread that is inside: it stays inside or leaves, and
    adds at most one event of its own. *)
Lemma inv_move (c c' : conf) (ph : tid -> phase) (t : tid) (next : phase) :
  inv c ph -> ph t = Inside -> next <> Idle ->
  in_phase next (thr c' t) ->
  thr c' (other t) = thr c (other t) ->
  owner (shr c') = match next with Inside => Some t | _ => None end ->
  (exists e, strace (shr c') = strace (shr c) ++ [(t, e)])
    \/ strace (shr c') = strace (shr c) ->
  inv c' (fun u => if tid_eqb u t then next else ph u).
Proof.
  intros (Hph & How & Hidle & Hin & Hser) Ht Hnext Hp Hq Hown Htr.
  assert (Ho : ph (other t) <> Inside).
  { intro H. apply How in H. apply How in Ht. rewrite H in Ht.
    injection Ht. apply other_neq. }
  assert (Hord : ordered (other t) t (strace (shr c'))).
  { destruct Htr as [[e ->]| ->]; auto using ordered_snoc. }
  unfold inv. repeat split.
  - intro u. destruct (tid_cases t u) as [-> | ->].
    + now rewrite tid_eqb_refl.
    + rewrite tid_eqb_other, Hq. apply Hph.
  - intro H. rewrite Hown in H. destruct next; try discriminate.
    injection H as <-. now rewrite tid_eqb_refl.
  - intro H. rewrite Hown. destruct (tid_cases t t0) as [-> | ->].
    + rewrite tid_eqb_refl in H. now rewrite H.
    + rewrite tid_eqb_other in H. contradiction.
  - intros u H. destruct (tid_cases t u) as [-> | ->].
    + rewrite tid_eqb_refl in H. contradiction.
    + rewrite tid_eqb_other in H. rewrite other_other.
      apply Hidle in H. rewrite other_other in H.
      destruct Htr as [[e ->]| ->]; auto using all_by_snoc.
  - intros u H. destruct (tid_cases t u) as [-> | ->]; [exact Hord|].
    rewrite tid_eqb_other in H. contradiction.
  - exact (ordered_serial _ _ Hord).
Qed.

Lemma step_inv (t : tid) (c c' : conf) (ph : tid -> phase) :
  inv c ph -> sched_step t c = Some c' -> exists ph', inv c' ph'.
Proof.
  intros Hinv Hs.
  apply sched_step_inv in Hs as (p & s & Hts & Hp & Hq & Hshr).
  pose proof Hinv as (Hph & How & Hidle & Hin & Hser).
  pose proof (Hph t) as Ht. destruct (ph t) eqn:Ept; cbn [in_phase] in Ht.
  - (* the thread takes the mutex *)
    inversion Ht as [k Hk Heq]. rewrite <- Heq in Hts. cbn [thread_step] in Hts.
    destruct (owner (shr c)) eqn:Eo; [discriminate|].
    injection Hts as <- <-.
    assert (Hord : ordered (other t) t (strace (shr c'))).
    { rewrite Hshr. cbn [strace]. apply ordered_snoc, all_by_ordered, Hidle, Ept. }
    exists (fun u => if tid_eqb u t then Inside else ph u).
    unfold inv. repeat split.
    + intro u. destruct (tid_cases t u) as [-> | ->].
      * rewrite tid_eqb_refl, Hp. exact Hk.
      * rewrite tid_eqb_other, Hq. apply Hph.
    + rewrite Hshr. cbn [owner]. intro H. injection H as <-.
      now rewrite tid_eqb_refl.
    + rewrite Hshr. cbn [owner]. intro H.
      destruct (tid_cases t t0) as [-> | ->]; [reflexivity|].
      rewrite tid_eqb_other in H. apply How in H. congruence.
    + intros u H. destruct (tid_cases t u) as [-> | ->].
      * rewrite tid_eqb_refl in H. discriminate.
      * rewrite tid_eqb_other in H. rewrite other_other, Hshr. cbn [strace].
        apply all_by_snoc. apply Hidle in H. now rewrite other_other in H.
    + intros u H. destruct (tid_cases t u) as [-> | ->]; [exact Hord|].
      rewrite tid_eqb_other in H. apply How in H. congruence.
    + exact (ordered_serial _ _ Hord).
  - (* the thread is inside *)
    assert (Eo : owner (shr c) = Some t) by now apply How.
    inversion Ht as [k Hk Heq|path payload k Hk Heq|q k Hk Heq|q v k Hk Heq];
      rewrite <- Heq in Hts; cbn [thread_step] in Hts.
    + rewrite Eo, tid_eqb_refl in Hts. injection Hts as <- <-.
      exists (fun u => if tid_eqb u t then Done else ph u).
      apply inv_move with (c := c); auto; try discriminate.
      * rewrite Hp. exact Hk.
      * now rewrite Hshr.
      * left. exists EvUnlock. now rewrite Hshr.
    + destruct (sys_write path payload (sworld (shr c))) as [r w].
      injection Hts as <- <-.
      exists (fun u => if tid_eqb u t then Inside else ph u).
      apply inv_move with (c := c); auto; try discriminate.
      * rewrite Hp. apply Hk.
      * now rewrite Hshr.
      * left. exists (EvWrite path payload r). now rewrite Hshr.
    + injection Hts as <- <-.
      exists (fun u => if tid_eqb u t then Inside else ph u).
      apply inv_move with (c := c); auto; try discriminate.
      * rewrite Hp. apply Hk.
      * now rewrite Hshr.
      * right. now rewrite Hshr.
    + injection Hts as <- <-.
      exists (fun u => if tid_eqb u t then Inside else ph u).
      apply inv_move with (c := c); auto; try discriminate.
      * rewrite Hp. exact Hk.
      * now rewrite Hshr.
      * right. now rewrite Hshr.
  - (* the thread has returned *)
    inversion Ht as [a Heq]. rewrite <- Heq in Hts. discriminate.
Qed.

Lemma exec_inv (sched : list tid) (c c' : conf) (ph : tid -> phase) :
  inv c ph -> exec sched c = Some c' -> exists ph', inv c' ph'.
Proof.
  revert c ph. induction sched as [|t rest IH]; intros c ph Hinv He.
  - injection He as <-. now exists ph.
  - cbn [exec] in He. destruct (sched_step t c) as [c1|] eqn:Es; [|discriminate].
    destruct (step_inv _ _ _ _ Hinv Es) as [ph1 H1]. eapply IH; eauto.
Qed.

Lemma start_inv (p1 p2 : prog Z) (g : leds) (w : world) :
  one_cs p1 -> one_cs p2 -> inv (start p1 p2 g w) (fun _ => Idle).
Proof.
  intros H1 H2. unfold inv, start. cbn [shr owner strace].
  split; [intros []; assumption|].
  split; [intro t; split; discriminate|].
  split; [intros; constructor|].
  split; [discriminate|].
  left. exists [], []. repeat split; constructor.
Qed.

(** Two concurrent calls that are each one critical section never
    interleave their events. *)
Lemma one_cs_serial (p1 p2 : prog Z) (g : leds) (w : world) (sched : list tid)
    (c : conf) :
  one_cs p1 -> one_cs p2 ->
  exec sched (start p1 p2 g w) = Some c -> serial (strace (shr c)).
Proof.
  intros H1 H2 He.
  destruct (exec_inv _ _ _ _ (start_inv p1 p2 g w H1 H2) He) as [ph Hinv].
  apply Hinv.
Qed.

(** [orderedb] accepts every trace that is [ordered]. *)
Lemma all_by_orderedb (a b : tid) (l : list (tid * event)) :
  all_by b l -> orderedb a b l = true.
Proof.
  induction 1 as [|e l He Hl IH]; [reflexivity|].
  cbn [orderedb]. destruct (tid_eqb (fst e) a); [exact IH|].
  cbn [forallb]. rewrite He, tid_eqb_refl. cbn [andb].
  apply forallb_forall. intros x Hx.
  unfold all_by in Hl. rewrite Forall_forall in Hl.
  rewrite (Hl x Hx). apply tid_eqb_refl.
Qed.

Lemma ordered_orderedb (a b : tid) (l : list (tid * event)) :
  ordered a b l -> orderedb a b l = true.
Proof.
  intros (la & lb & -> & Ha & Hb).
  induction Ha as [|e la He Hla IH]; [now apply all_by_orderedb|].
  cbn [app orderedb]. now rewrite He, tid_eqb_refl.
Qed.

(** *** The events of one call *)

Lemma lock_ok_writes (plan : list (string * string)) (results : list Z)
    (rest : list event) :
  lock_ok true (writes_of plan results ++ rest) = lock_ok true rest.
Proof.
  unfold writes_of. revert results.
  induction plan as [|x plan IH]; intros [|r results]; try reflexivity.
  cbn [combine map app lock_ok andb]. apply IH.
Qed.

Lemma set_led_trace (dir : string) (battery notifications : slot) (m : machine) :
  exists plan results,
    trace (snd (run (set_led dir battery notifications) m)) =
    trace m ++ writes_of plan results.
Proof.
  rewrite set_led_chain, run_check_chain.
  match goal with
  | |- context [write_until_failure ?pl ?w] =>
      pose proof (write_until_failure_spec pl w) as H;
      destruct (write_until_failure pl w) as [[r w'] evs]; exists pl
  end.
  destruct H as (results & -> & _). now exists results.
Qed.

Lemma arbitrate_both_trace (m1 : machine) :
  exists evs,
    trace (snd (run (res <- set_led RED_LED_DIR battery_red notifications_red ;;
                     res <- (if res >=? 0
                             then set_led BLUE_LED_DIR battery_blue
                                          notifications_blue
                             else Ret res) ;;
                     pthread_mutex_unlock ;;
                     Ret res) m1)) = trace m1 ++ evs
    /\ lock_ok true evs = true.
Proof.
  rewrite run_arbitrate_both.
  destruct (set_led_trace RED_LED_DIR battery_red notifications_red m1)
    as (plan1 & res1 & H1).
  destruct (run (set_led RED_LED_DIR battery_red notifications_red) m1)
    as [red m2]. cbn [snd] in H1.
  destruct (red <? 0).
  - exists (writes_of plan1 res1 ++ [EvUnlock]). cbn [snd log trace].
    rewrite H1, lock_ok_writes, app_assoc. auto.
  - destruct (set_led_trace BLUE_LED_DIR battery_blue notifications_blue m2)
      as (plan2 & res2 & H2).
    destruct (run (set_led BLUE_LED_DIR battery_blue notifications_blue) m2)
      as [blue m3]. cbn [snd] in H2.
    exists (writes_of plan1 res1 ++ writes_of plan2 res2 ++ [EvUnlock]).
    cbn [snd log trace]. rewrite H2, H1, !lock_ok_writes, <- !app_assoc. auto.
Qed.

(** Every handler makes each of its device writes with the mutex held,
    and leaves the mutex free. *)
Lemma set_light_lock_ok (id : light_id) (st : light_state_t) (m : machine) :
  exists evs,
    trace (snd (run (set_light id st) m)) = trace m ++ evs
    /\ lock_ok false evs = true.
Proof.
  destruct id; cbn [set_light].
  - unfold set_light_backlight, pthread_mutex_lock, pthread_mutex_unlock,
      write_int. run_cbn.
    destruct (sys_write LCD_FILE _ (sysfs m)) as [r w]. run_cbn.
    cbn [snd trace]. rewrite <- !app_assoc. cbn [app].
    eexists. split; reflexivity.
  - pose proof (run_set_light_keyboard st m) as H. cbv zeta in H.
    destruct (sys_write KEYBOARD_FILE _ (sysfs m)) as [r w]. rewrite H.
    eexists. cbn [snd trace]. split; reflexivity.
  - pose proof (run_set_light_buttons st m) as H. cbv zeta in H.
    pose proof (run_set_light_keyboard st m) as K. cbv zeta in K.
    destruct (sys_write KEYBOARD_FILE _ (sysfs m)) as [rk wk].
    destruct (run (set_light_keyboard st) m) as [kbd m1].
    destruct (sys_write BRIGHTNESS_FILE _ (sysfs m1)) as [rv wv].
    destruct (sys_write BUTTONS_FILE _ _) as [rb wb].
    rewrite H. cbn [snd trace]. inversion K; subst.
    destruct (0 <? rgb_to_brightness st); cbn [trace];
      rewrite <- ?app_assoc; eexists; split; reflexivity.
  - unfold set_light_battery, pthread_mutex_lock. cbn [bind run].
    rewrite run_bind, run_comp_led_states.
    destruct (arbitrate_both_trace
                (mk_machine
                   (leds_set
                      (leds_set (mem (log EvLock m)) battery_red
                         (mk_led_state
                            (notnot (Z.land (Z.shiftr (color st) 16) 0xff))
                            (fst (flash_delays st)) (snd (flash_delays st))))
                      battery_blue
                      (mk_led_state (notnot (Z.land (color st) 0xff))
                         (fst (flash_delays st)) (snd (flash_delays st))))
                   (sysfs (log EvLock m)) (trace (log EvLock m))))
      as (evs & Htr & Hok).
    exists (EvLock :: evs). rewrite Htr. unfold log. cbn [trace].
    rewrite <- app_assoc. split; [reflexivity|exact Hok].
  - unfold set_light_notifications, pthread_mutex_lock. cbn [bind run].
    rewrite run_bind, run_comp_led_states.
    destruct (arbitrate_both_trace
                (mk_machine
                   (leds_set
                      (leds_set (mem (log EvLock m)) notifications_red
                         (mk_led_state
                            (notnot (Z.land (Z.shiftr (color st) 16) 0xff))
                            (fst (flash_delays st)) (snd (flash_delays st))))
                      notifications_blue
                      (mk_led_state (notnot (Z.land (color st) 0xff))
                         (fst (flash_delays st)) (snd (flash_delays st))))
                   (sysfs (log EvLock m)) (trace (log EvLock m))))
      as (evs & Htr & Hok).
    exists (EvLock :: evs). rewrite Htr. unfold log. cbn [trace].
    rewrite <- app_assoc. split; [reflexivity|exact Hok].
Qed.

Lemma one_cs_inv (k : prog Z) : one_cs (Lock k) -> in_cs k.
Proof. now inversion 1. Qed.

Lemma in_cs_write_inv (path payload : string) (k : Z -> prog Z) :
  in_cs (DevWrite path payload k) -> forall r, in_cs (k r).
Proof. now inversion 1. Qed.

Lemma in_cs_unlock_inv (k : prog Z) : in_cs (Unlock k) -> finished k.
Proof. now inversion 1. Qed.

Lemma finished_not_lock (k : prog Z) : ~ finished (Lock k).
Proof. inversion 1. Qed.

(** [set_light_buttons] releases the mutex after its first write and
    goes on: it is not one critical section. *)
Lemma set_light_buttons_not_one_cs (st : light_state_t) :
  ~ one_cs (set_light_buttons st).
Proof.
  unfold set_light_buttons, set_light_keyboard, pthread_mutex_lock,
    pthread_mutex_unlock, write_int. cbn [bind].
  intro H. apply one_cs_inv in H.
  apply in_cs_write_inv with (r := 0) in H. apply in_cs_unlock_inv in H.
  destruct (0 <? rgb_to_brightness st); cbn [bind] in H;
    exact (finished_not_lock _ H).
Qed.

(** ** More of the handlers *)

Lemma select_state_winner (battery notifications : slot) (m : machine) :
  option_map (mem m) (fst (run (select_state battery notifications) m)) =
  winner_of (mem m battery) (mem m notifications).
Proof.
  unfold select_state, load, winner_of. cbn [bind run].
  destruct (enabled (mem m notifications) =? 0); cbn [negb bind run fst option_map];
    [|reflexivity].
  destruct (enabled (mem m battery) =? 0); reflexivity.
Qed.

Lemma run_set_led (dir : string) (battery notifications : slot) (m : machine) :
  run (set_led dir battery notifications) m =
  let '(r, w, evs) :=
    write_until_failure
      (arbiter_plan dir (winner_of (mem m battery) (mem m notifications)))
      (sysfs m) in
  (r, mk_machine (mem m) w (trace m ++ evs)).
Proof.
  now rewrite set_led_chain, run_check_chain, select_state_winner.
Qed.

(** X1.  When an LED has a winning record whose delays are not both
    positive (both zero, one of them zero, or negative), [set_led] shows
    it steady: trigger=none then brightness=255, stopping at the first
    failure; it writes none of blink_count, delay_on, delay_off. *)
Theorem set_led_steady
    (dir : string) (battery notifications : slot) (m : machine) (s : led_state) :
  winner_of (mem m battery) (mem m notifications) = Some s ->
  ~ (0 < delay_on s /\ 0 < delay_off s) ->
  run (set_led dir battery notifications) m =
  let '(r, w, evs) :=
    write_until_failure
      [ (df_path dir "trigger", "none"); (df_path dir "brightness", "255") ]
      (sysfs m) in
  (r, mk_machine (mem m) w (trace m ++ evs)).
Proof using Type.
  intros Hw Hd. rewrite run_set_led, Hw. unfold arbiter_plan.
  destruct ((0 <? delay_on s) && (0 <? delay_off s)) eqn:E; [|reflexivity].
  apply andb_true_iff in E. destruct E as [E1 E2].
  apply Z.ltb_lt in E1, E2. exfalso. apply Hd. now split.
Qed.

(** X2.  [set_light_backlight] makes one write, to the backlight control,
    of the luma [(77*R + 150*G + 29*B) / 256] of the colour, a value
    between 0 and 255, with the mutex held; it returns the result of that
    write and leaves the records alone. *)
Theorem set_light_backlight_write (st : light_state_t) (m : machine) :
  let luma :=
    (77 * (color st / 2 ^ 16 mod 2 ^ 8) + 150 * (color st / 2 ^ 8 mod 2 ^ 8)
     + 29 * (color st mod 2 ^ 8)) / 2 ^ 8 in
  0 <= luma <= 255
  /\ let '(res, w) := sys_write LCD_FILE (sprintf_d_nl luma) (sysfs m) in
     run (set_light_backlight st) m =
     (res, mk_machine (mem m) w
             (trace m ++ [EvLock; EvWrite LCD_FILE (sprintf_d_nl luma) res;
                          EvUnlock])).
Proof using Type.
  cbv zeta. change (2 ^ 16) with 65536. change (2 ^ 8) with 256.
  rewrite <- rgb_to_brightness_bytes.
  split; [apply rgb_to_brightness_range|].
  unfold set_light_backlight, pthread_mutex_lock, pthread_mutex_unlock, write_int.
  run_cbn.
  destruct (sys_write LCD_FILE _ (sysfs m)) as [res w].
  run_cbn. now rewrite <- !app_assoc.
Qed.


Lemma substring_prefix_length (n : nat) (s : string) :
  String.length (substring 0 n s) = Nat.min n (String.length s).
Proof.
  revert s. induction n as [|n IH]; intros [|c s]; cbn; auto.
Qed.

Lemma substring_whole (n : nat) (s : string) :
  (String.length s <= n)%nat -> substring 0 n s = s.
Proof.
  revert s. induction n as [|n IH]; intros [|c s] H; cbn in *; auto; try lia.
  f_equal. apply IH. lia.
Qed.

(** X4.  The path [write_df_int] and [write_df_str] build never exceeds
    the buffer: it has at most [PATH_MAX - 1] characters.  It is
    [dir/file] whenever that fits, and otherwise it is cut to exactly
    [PATH_MAX - 1] characters, so the write goes to another path. *)
Theorem df_path_bounded (dir file : string) :
  (String.length (df_path dir file) <= PATH_MAX - 1)%nat
  /\ ((String.length (dir ++ "/" ++ file)%string <= PATH_MAX - 1)%nat ->
      df_path dir file = (dir ++ "/" ++ file)%string)
  /\ ((PATH_MAX - 1 < String.length (dir ++ "/" ++ file)%string)%nat ->
      String.length (df_path dir file) = (PATH_MAX - 1)%nat
      /\ df_path dir file <> (dir ++ "/" ++ file)%string).
Proof using Type.
  unfold df_path. repeat split.
  - rewrite substring_prefix_length. lia.
  - apply substring_whole.
  - rewrite substring_prefix_length. lia.
  - intro E. apply (f_equal String.length) in E.
    rewrite substring_prefix_length in E. lia.
Qed.

(** *** What a battery or notifications call writes *)

Lemma run_arbitrate_both_plans (m1 : machine) :
  run (res <- set_led RED_LED_DIR battery_red notifications_red ;;
       res <- (if res >=? 0
               then set_led BLUE_LED_DIR battery_blue notifications_blue
               else Ret res) ;;
       pthread_mutex_unlock ;;
       Ret res) m1 =
  let '(r, w, evs) :=
    write_both
      (arbiter_plan RED_LED_DIR
         (winner_of (mem m1 battery_red) (mem m1 notifications_red)))
      (arbiter_plan BLUE_LED_DIR
         (winner_of (mem m1 battery_blue) (mem m1 notifications_blue)))
      (sysfs m1) in
  (r, mk_machine (mem m1) w (trace m1 ++ evs ++ [EvUnlock])).
Proof.
  rewrite run_arbitrate_both, run_set_led. unfold write_both.
  destruct (write_until_failure
              (arbiter_plan RED_LED_DIR
                 (winner_of (mem m1 battery_red) (mem m1 notifications_red)))
              (sysfs m1)) as [[r1 w1] ev1].
  destruct (r1 <? 0).
  - unfold log. cbn [mem sysfs trace]. now rewrite <- app_assoc.
  - rewrite run_set_led. cbn [mem sysfs trace].
    destruct (write_until_failure
                (arbiter_plan BLUE_LED_DIR
                   (winner_of (mem m1 battery_blue) (mem m1 notifications_blue)))
                w1) as [[r2 w2] ev2].
    unfold log. cbn [mem sysfs trace]. now rewrite <- !app_assoc.
Qed.

Lemma run_set_light_battery (st : light_state_t) (m : machine) :
  run (set_light_battery st) m =
  let '(r, w, evs) :=
    write_both
      (arbiter_plan RED_LED_DIR
         (winner_of (recomputed_red st) (mem m notifications_red)))
      (arbiter_plan BLUE_LED_DIR
         (winner_of (recomputed_blue st) (mem m notifications_blue)))
      (sysfs m) in
  (r, mk_machine
        (leds_set (leds_set (mem m) battery_red (recomputed_red st))
                  battery_blue (recomputed_blue st))
        w (trace m ++ [EvLock] ++ evs ++ [EvUnlock])).
Proof.
  unfold set_light_battery, pthread_mutex_lock. cbn [bind run].
  rewrite run_bind, run_comp_led_states, run_arbitrate_both_plans.
  unfold log, leds_set. cbn [mem sysfs trace slot_eqb].
  fold (recomputed_red st). fold (recomputed_blue st).
  destruct (write_both _ _ (sysfs m)) as [[r w] evs].
  now rewrite <- !app_assoc.
Qed.

Lemma run_set_light_notifications (st : light_state_t) (m : machine) :
  run (set_light_notifications st) m =
  let '(r, w, evs) :=
    write_both
      (arbiter_plan RED_LED_DIR
         (winner_of (mem m battery_red) (recomputed_red st)))
      (arbiter_plan BLUE_LED_DIR
         (winner_of (mem m battery_blue) (recomputed_blue st)))
      (sysfs m) in
  (r, mk_machine
        (leds_set (leds_set (mem m) notifications_red (recomputed_red st))
                  notifications_blue (recomputed_blue st))
        w (trace m ++ [EvLock] ++ evs ++ [EvUnlock])).
Proof.
  unfold set_light_notifications, pthread_mutex_lock. cbn [bind run].
  rewrite run_bind, run_comp_led_states, run_arbitrate_both_plans.
  unfold log, leds_set. cbn [mem sysfs trace slot_eqb].
  fold (recomputed_red st). fold (recomputed_blue st).
  destruct (write_both _ _ (sysfs m)) as [[r w] evs].
  now rewrite <- !app_assoc.
Qed.

(** *** Two concurrent calls are two sequential calls *)

Lemma in_phase_phase_of (ph : phase) (p : prog Z) :
  in_phase ph p -> phase_of p = ph.
Proof.
  destruct ph; cbn [in_phase]; inversion 1; reflexivity.
Qed.

(** One instruction of a thread is one instruction of [run]. *)
Lemma thread_step_run (t : tid) (p p' : prog Z) (s s' : shared) :
  thread_step t p s = Some (p', s') -> run p (mach s) = run p' (mach s').
Proof.
  destruct p as [a|k|k|path payload k|q k|q v k]; cbn [thread_step]; intro H.
  - discriminate.
  - destruct (owner s); [discriminate|]. injection H as <- <-.
    unfold mach. cbn [run smem sworld strace]. unfold log.
    cbn [mem sysfs trace]. now rewrite map_app.
  - destruct (owner s) as [u|]; [|discriminate].
    destruct (tid_eqb u t); [|discriminate]. injection H as <- <-.
    unfold mach. cbn [run smem sworld strace]. unfold log.
    cbn [mem sysfs trace]. now rewrite map_app.
  - unfold mach at 1. cbn [run sysfs].
    destruct (sys_write path payload (sworld s)) as [r w].
    injection H as <- <-. unfold mach. cbn [smem sworld strace mem trace].
    now rewrite map_app.
  - injection H as <- <-. reflexivity.
  - injection H as <- <-. reflexivity.
Qed.


Lemma step_started (t : tid) (ph : phase) (p p' : prog Z) (s s' : shared) :
  in_phase ph p -> thread_step t p s = Some (p', s') ->
  phase_of p' <> Idle /\ (ph = Idle -> owner s = None) /\ ph <> Done.
Proof.
  intros Hp Hts. destruct ph; cbn [in_phase] in Hp.
  - inversion Hp as [k Hk E]. rewrite <- E in Hts. cbn [thread_step] in Hts.
    destruct (owner s); [discriminate|]. injection Hts as <- _.
    repeat split; try discriminate. inversion Hk; discriminate.
  - repeat split; try discriminate.
    inversion Hp as [k Hk E|pa py k Hk E|sl k Hk E|sl v k Hk E];
      rewrite <- E in Hts; cbn [thread_step] in Hts.
    + destruct (owner s) as [x|]; [|discriminate].
      destruct (tid_eqb x t); [|discriminate]. injection Hts as <- _.
      inversion Hk. discriminate.
    + destruct (sys_write pa py (sworld s)) as [r w]. injection Hts as <- _.
      specialize (Hk r). inversion Hk; discriminate.
    + injection Hts as <- _. specialize (Hk (smem s sl)).
      inversion Hk; discriminate.
    + injection Hts as <- _. inversion Hk; discriminate.
  - inversion Hp as [a E]. rewrite <- E in Hts. discriminate.
Qed.

Lemma ser_step (p : tid -> prog Z) (m0 : machine) (u : tid) (c c' : conf)
    (ph : tid -> phase) :
  inv c ph -> ser_inv p m0 c -> sched_step u c = Some c' ->
  ser_inv p m0 c'.
Proof.
  intros (Hph & How & _) (HA & HB & HC & HD) Hs.
  apply sched_step_inv in Hs as (q & s & Hts & Hq & Ho & Hshr).
  pose proof (thread_step_run _ _ _ _ _ Hts) as Hrun.
  rewrite <- Hq, <- Hshr in Hrun.
  destruct (step_started _ _ _ _ _ _ (Hph u) Hts) as (Pu' & Hfree & Hnd).
  rewrite <- Hq in Pu'.
  assert (Pu : phase_of (thr c u) = ph u) by apply in_phase_phase_of, Hph.
  assert (Po : phase_of (thr c (other u)) = ph (other u))
    by apply in_phase_phase_of, Hph.
  assert (Ho' : phase_of (thr c' (other u)) = phase_of (thr c (other u)))
    by now rewrite Ho.
  (* at most one thread is inside *)
  assert (Hexcl : ph u <> Done /\ (ph u = Idle -> ph (other u) <> Inside)
                  /\ (ph u = Inside -> ph (other u) <> Inside)).
  { split; [exact Hnd|]. split.
    - intros Hi Hin. apply How in Hin. rewrite (Hfree Hi) in Hin. discriminate.
    - intros Hi Hin. apply How in Hi. apply How in Hin. rewrite Hi in Hin.
      injection Hin. intro X. symmetry in X. now apply other_neq in X. }
  destruct Hexcl as (_ & Hex1 & Hex2).
  unfold ser_inv. repeat split.
  - intros t Ht. destruct (tid_cases u t) as [-> | ->]; [contradiction|].
    rewrite Ho. apply HA. now rewrite <- Ho'.
  - intros H1 H2. destruct u; contradiction.
  - intros t Ht Hot. destruct (tid_cases u t) as [-> | ->].
    + rewrite <- Hrun. rewrite Ho' in Hot.
      destruct (ph u) eqn:E.
      * rewrite (HA u) by congruence. f_equal.
        destruct u; cbn [other] in Hot; apply HB; congruence.
      * apply HC; [congruence|exact Hot].
      * contradiction.
    + rewrite other_other in Hot. contradiction.
  - intros N1 N2.
    assert (Hno : ph (other u) = Done).
    { assert (N : phase_of (thr c (other u)) <> Idle)
        by (rewrite <- Ho'; destruct u; assumption).
      rewrite Po in N. destruct (ph (other u)) eqn:Eo; try congruence.
      destruct (ph u) eqn:E; try contradiction; exfalso;
        [now apply Hex1|now apply Hex2]. }
    pose proof (Hph (other u)) as Hf. rewrite Hno in Hf. cbn [in_phase] in Hf.
    inversion Hf as [a Ea].
    exists u. rewrite Ho, <- Hrun.
    destruct (ph u) eqn:E.
    + (* [u] starts now, after the other call has returned *)
      assert (Hc : run (thr c (other u)) (mach (shr c)) = run (p (other u)) m0).
      { apply HC; [congruence|]. rewrite other_other. congruence. }
      rewrite <- Ea in Hc. cbn [run] in Hc. rewrite <- Hc. cbn [fst snd].
      split; [now rewrite <- Ea|]. rewrite (HA u) by congruence. reflexivity.
    + (* [u] was inside already, after the other call *)
      destruct HD as (t & Ht1 & Ht2).
      { destruct u; cbn [other] in *; congruence. }
      { destruct u; cbn [other] in *; congruence. }
      destruct (tid_cases u t) as [-> | ->]; [now split|].
      rewrite other_other in Ht1. rewrite Ht1 in Pu. cbn [phase_of] in Pu.
      congruence.
    + contradiction.
Qed.

Lemma ser_exec (p : tid -> prog Z) (m0 : machine) (sched : list tid)
    (c c' : conf) (ph : tid -> phase) :
  inv c ph -> ser_inv p m0 c -> exec sched c = Some c' -> ser_inv p m0 c'.
Proof.
  revert c ph. induction sched as [|t rest IH]; intros c ph Hinv Hser He.
  - now injection He as <-.
  - cbn [exec] in He. destruct (sched_step t c) as [c1|] eqn:Es; [|discriminate].
    destruct (step_inv _ _ _ _ Hinv Es) as [ph1 H1].
    eapply IH; eauto using ser_step.
Qed.

Lemma ser_start (p1 p2 : prog Z) (g : leds) (w : world) :
  one_cs p1 -> one_cs p2 ->
  ser_inv (fun t => match t with T1 => p1 | T2 => p2 end)
          (mk_machine g w []) (start p1 p2 g w).
Proof.
  intros H1 H2. inversion H1 as [k1 Hk1 E1]. inversion H2 as [k2 Hk2 E2].
  unfold ser_inv, start. cbn [thr thr1 thr2 shr phase_of].
  repeat split; congruence.
Qed.

(** Two concurrent calls that are each one critical section, once both
    have returned, have returned what they return, and left what they
    leave, when run one after the other in one of the two orders. *)
Lemma one_cs_serializable (p1 p2 : prog Z) (g : leds) (w : world)
    (sched : list tid) (c : conf) :
  one_cs p1 -> one_cs p2 ->
  exec sched (start p1 p2 g w) = Some c ->
  finished (thr1 c) -> finished (thr2 c) ->
  (let '(a, m1) := run p1 (mk_machine g w []) in
   let '(b, m2) := run p2 m1 in
   thr1 c = Ret a /\ thr2 c = Ret b /\ mach (shr c) = m2)
  \/ (let '(b, m1) := run p2 (mk_machine g w []) in
      let '(a, m2) := run p1 m1 in
      thr1 c = Ret a /\ thr2 c = Ret b /\ mach (shr c) = m2).
Proof.
  intros H1 H2 He F1 F2.
  pose proof (ser_exec _ _ _ _ _ _ (start_inv p1 p2 g w H1 H2)
                (ser_start p1 p2 g w H1 H2) He) as (_ & _ & _ & HD).
  inversion F1 as [a Ea]. inversion F2 as [b Eb].
  destruct HD as (t & Ht1 & Ht2).
  { cbn [thr]. rewrite <- Ea. discriminate. }
  { cbn [thr]. rewrite <- Eb. discriminate. }
  destruct t; cbn [thr other] in Ht1, Ht2.
  - right. rewrite <- Ea in Ht2. cbn [run] in Ht2.
    destruct (run p2 (mk_machine g w [])) as [b' m1]. cbn [fst snd] in *.
    destruct (run p1 m1) as [a' m2]. injection Ht2 as <- <-.
    rewrite <- Eb in Ht1. now injection Ht1 as <-.
  - left. rewrite <- Eb in Ht2. cbn [run] in Ht2.
    destruct (run p1 (mk_machine g w [])) as [a' m1]. cbn [fst snd] in *.
    destruct (run p2 m1) as [b' m2]. injection Ht2 as <- <-.
    rewrite <- Ea in Ht1. now injection Ht1 as <-.
Qed.

(** *** Calls in sequence and calls in parallel *)

(** X5.  A battery call locks, stores the two records its request
    computes, and writes the red LED and then the blue LED: each LED
    shows the stored notifications record when that is enabled, else the
    new battery record when it is enabled, else it is switched off; the
    blue LED is written only when no write to the red LED failed.  The
    call then unlocks and returns the result of the last write made, or
    0 when none failed. *)
Theorem set_light_battery_writes (st : light_state_t) (m : machine) :
  let '(r, w, evs) :=
    write_both
      (arbiter_plan RED_LED_DIR
         (winner_of (recomputed_red st) (mem m notifications_red)))
      (arbiter_plan BLUE_LED_DIR
         (winner_of (recomputed_blue st) (mem m notifications_blue)))
      (sysfs m) in
  run (set_light_battery st) m =
  (r, mk_machine
        (leds_set (leds_set (mem m) battery_red (recomputed_red st))
                  battery_blue (recomputed_blue st))
        w (trace m ++ [EvLock] ++ evs ++ [EvUnlock])).
Proof using Type.
  rewrite run_set_light_battery.
  now destruct (write_both _ _ (sysfs m)) as [[r w] evs].
Qed.

(** X6.  A notifications call locks, stores the two records its request
    computes, and writes the red LED and then the blue LED: each LED
    shows the new notifications record when it is enabled, else the
    stored battery record when that is enabled, else it is switched off;
    the blue LED is written only when no write to the red LED failed. *)
Theorem set_light_notifications_writes (st : light_state_t) (m : machine) :
  let '(r, w, evs) :=
    write_both
      (arbiter_plan RED_LED_DIR
         (winner_of (mem m battery_red) (recomputed_red st)))
      (arbiter_plan BLUE_LED_DIR
         (winner_of (mem m battery_blue) (recomputed_blue st)))
      (sysfs m) in
  run (set_light_notifications st) m =
  (r, mk_machine
        (leds_set (leds_set (mem m) notifications_red (recomputed_red st))
                  notifications_blue (recomputed_blue st))
        w (trace m ++ [EvLock] ++ evs ++ [EvUnlock])).
Proof using Type.
  rewrite run_set_light_notifications.
  now destruct (write_both _ _ (sysfs m)) as [[r w] evs].
Qed.

Lemma recomputed_red_enabled (st : light_state_t) :
  enabled (recomputed_red st) = if color st / 65536 mod 256 =? 0 then 0 else 1.
Proof. unfold recomputed_red. cbn [enabled]. now rewrite notnot_byte, shiftr16. Qed.

Lemma recomputed_blue_enabled (st : light_state_t) :
  enabled (recomputed_blue st) = if color st mod 256 =? 0 then 0 else 1.
Proof. unfold recomputed_blue. cbn [enabled]. now rewrite notnot_byte. Qed.

(** X7.  A notifications request whose red and blue bytes are zero
    (black, or any shade of pure green) gives both LEDs back to the
    battery: after a battery call with request [st_b], such a
    notifications call writes to each LED what [st_b] asked of it, steady
    or blinking, or switches it off if [st_b] did not light it; the
    battery records are as [st_b] left them. *)
Theorem notifications_clear_restores_battery
    (st_b st_n : light_state_t) (m : machine) :
  color st_n / 2 ^ 16 mod 2 ^ 8 = 0 -> color st_n mod 2 ^ 8 = 0 ->
  let m1 := snd (run (set_light_battery st_b) m) in
  let shown := fun s : led_state => if enabled s =? 0 then None else Some s in
  let '(r, w, evs) :=
    write_both (arbiter_plan RED_LED_DIR (shown (recomputed_red st_b)))
               (arbiter_plan BLUE_LED_DIR (shown (recomputed_blue st_b)))
               (sysfs m1) in
  let '(res, m2) := run (set_light_notifications st_n) m1 in
  res = r /\ sysfs m2 = w
  /\ trace m2 = trace m1 ++ [EvLock] ++ evs ++ [EvUnlock]
  /\ mem m2 battery_red = recomputed_red st_b
  /\ mem m2 battery_blue = recomputed_blue st_b.
Proof using Type.
  change (2 ^ 16) with 65536. change (2 ^ 8) with 256.
  intros Hr Hb. cbv zeta.
  rewrite run_set_light_notifications.
  assert (E1 : mem (snd (run (set_light_battery st_b) m)) battery_red
               = recomputed_red st_b).
  { rewrite run_set_light_battery.
    now destruct (write_both _ _ (sysfs m)) as [[r w] evs]. }
  assert (E2 : mem (snd (run (set_light_battery st_b) m)) battery_blue
               = recomputed_blue st_b).
  { rewrite run_set_light_battery.
    now destruct (write_both _ _ (sysfs m)) as [[r w] evs]. }
  rewrite E1, E2. unfold winner_of.
  rewrite (recomputed_red_enabled st_n), (recomputed_blue_enabled st_n), Hr, Hb.
  cbn [Z.eqb negb].
  replace (if negb (enabled (recomputed_red st_b) =? 0)
           then Some (recomputed_red st_b) else None)
    with (if enabled (recomputed_red st_b) =? 0
          then None else Some (recomputed_red st_b))
    by now destruct (enabled (recomputed_red st_b) =? 0).
  replace (if negb (enabled (recomputed_blue st_b) =? 0)
           then Some (recomputed_blue st_b) else None)
    with (if enabled (recomputed_blue st_b) =? 0
          then None else Some (recomputed_blue st_b))
    by now destruct (enabled (recomputed_blue st_b) =? 0).
  destruct (write_both _ _ _) as [[r w] evs].
  cbn [mem sysfs trace]. unfold leds_set. cbn [slot_eqb]. auto.
Qed.

(** X8.  While the stored notifications records of both LEDs are enabled,
    a battery call changes nothing on the devices that depends on its
    request: whatever the request, it writes the notifications patterns
    to both LEDs again and only records the request. *)
Theorem set_light_battery_under_notifications (st : light_state_t) (m : machine) :
  enabled (mem m notifications_red) <> 0 ->
  enabled (mem m notifications_blue) <> 0 ->
  let '(r, w, evs) :=
    write_both (arbiter_plan RED_LED_DIR (Some (mem m notifications_red)))
               (arbiter_plan BLUE_LED_DIR (Some (mem m notifications_blue)))
               (sysfs m) in
  let '(res, m') := run (set_light_battery st) m in
  res = r /\ sysfs m' = w
  /\ trace m' = trace m ++ [EvLock] ++ evs ++ [EvUnlock]
  /\ mem m' battery_red = recomputed_red st
  /\ mem m' battery_blue = recomputed_blue st.
Proof using Type.
  intros Hr Hb. rewrite run_set_light_battery. unfold winner_of.
  apply Z.eqb_neq in Hr, Hb. rewrite Hr, Hb. cbn [negb].
  destruct (write_both _ _ _) as [[r w] evs].
  cbn [mem sysfs trace]. unfold leds_set. cbn [slot_eqb]. auto.
Qed.

(** X9.  Two concurrent calls among backlight, keyboard, battery and
    notifications, under any schedule after which both have returned:
    the values they returned, the records, the devices and the events
    are those of the two calls made one after the other, in one of the
    two orders. *)
Theorem concurrent_calls_serializable
    (id1 id2 : light_id) (st1 st2 : light_state_t)
    (g : leds) (w : world) (sched : list tid) :
  id1 <> BUTTONS -> id2 <> BUTTONS ->
  match exec sched (start (set_light id1 st1) (set_light id2 st2) g w) with
  | Some c =>
      finished (thr1 c) -> finished (thr2 c) ->
      (let '(a, m1) := run (set_light id1 st1) (mk_machine g w []) in
       let '(b, m2) := run (set_light id2 st2) m1 in
       thr1 c = Ret a /\ thr2 c = Ret b /\ mach (shr c) = m2)
      \/ (let '(b, m1) := run (set_light id2 st2) (mk_machine g w []) in
          let '(a, m2) := run (set_light id1 st1) m1 in
          thr1 c = Ret a /\ thr2 c = Ret b /\ mach (shr c) = m2)
  | None => True
  end.
Proof using Type.
  intros H1 H2.
  destruct (exec sched _) as [c|] eqn:E; [|exact I].
  intros F1 F2.
  eapply one_cs_serializable; eauto using set_light_one_cs.
Qed.

(** ** The system calls of [write_int] and [write_str] *)

Lemma log_count_app (o : os) (a b : Z) (l1 l2 : list sys_event) :
  log_count (mk_io o a b (l1 ++ l2)) =
  (List.length (filter is_log l1) + List.length (filter is_log l2))%nat.
Proof. unfold log_count. cbn [io_trace]. now rewrite filter_app, length_app. Qed.

Lemma do_call_int_logs (path : string) (value : Z) (s : io_state) :
  (log_count (do_call s (CallInt path value))
   + unwarned (warned_int (do_call s (CallInt path value)))
   <= log_count s + unwarned (warned_int s))%nat
  /\ (log_count s <= log_count (do_call s (CallInt path value)))%nat
  /\ warned_str (do_call s (CallInt path value)) = warned_str s.
Proof.
  cbn [do_call]. unfold write_int_os.
  destruct (sys_open path (io_os s)) as [fd o1].
  destruct (0 <=? fd).
  - destruct (sys_write_fd fd (sprintf_d_nl value) o1) as [amt o2].
    cbn [snd warned_int warned_str]. rewrite log_count_app.
    cbn. fold (log_count s). repeat split; lia.
  - destruct (warned_int s =? 0) eqn:E; cbn [snd warned_int warned_str];
      rewrite log_count_app; unfold unwarned; rewrite ?E; cbn;
      fold (log_count s); repeat split; lia.
Qed.

Lemma do_call_str_logs (path str : string) (s : io_state) :
  (log_count (do_call s (CallStr path str))
   + unwarned (warned_str (do_call s (CallStr path str)))
   <= log_count s + unwarned (warned_str s))%nat
  /\ (log_count s <= log_count (do_call s (CallStr path str)))%nat
  /\ warned_int (do_call s (CallStr path str)) = warned_int s.
Proof.
  cbn [do_call]. unfold write_str_os.
  destruct (sys_open path (io_os s)) as [fd o1].
  destruct (0 <=? fd).
  - destruct (sys_write_fd fd str o1) as [amt o2].
    cbn [snd warned_int warned_str]. rewrite log_count_app.
    cbn. fold (log_count s). repeat split; lia.
  - destruct (warned_str s =? 0) eqn:E; cbn [snd warned_int warned_str];
      rewrite log_count_app; unfold unwarned; rewrite ?E; cbn;
      fold (log_count s); repeat split; lia.
Qed.

Lemma logs_by_int (cs : list io_call) (s : io_state) :
  (logs_by is_int_call cs s + unwarned (warned_int (do_calls cs s))
   <= unwarned (warned_int s))%nat.
Proof.
  revert s. induction cs as [|c cs IH]; intro s; [cbn; lia|].
  unfold do_calls in *. cbn [logs_by fold_left]. specialize (IH (do_call s c)).
  destruct c as [path value|path str]; cbn [is_int_call]; unfold call_logged.
  - pose proof (do_call_int_logs path value s) as (H1 & H2 & _). lia.
  - pose proof (do_call_str_logs path str s) as (_ & _ & H3).
    rewrite H3 in IH. lia.
Qed.

Lemma logs_by_str (cs : list io_call) (s : io_state) :
  (logs_by is_str_call cs s + unwarned (warned_str (do_calls cs s))
   <= unwarned (warned_str s))%nat.
Proof.
  revert s. induction cs as [|c cs IH]; intro s; [cbn; lia|].
  unfold do_calls in *. cbn [logs_by fold_left]. specialize (IH (do_call s c)).
  destruct c as [path value|path str]; cbn [is_str_call]; unfold call_logged.
  - pose proof (do_call_int_logs path value s) as (_ & _ & H3).
    rewrite H3 in IH. lia.
  - pose proof (do_call_str_logs path str s) as (H1 & H2 & _). lia.
Qed.

Lemma logs_by_total (cs : list io_call) (s : io_state) :
  log_count (do_calls cs s) =
  (log_count s + logs_by is_int_call cs s + logs_by is_str_call cs s)%nat.
Proof.
  revert s. induction cs as [|c cs IH]; intro s; [cbn; lia|].
  unfold do_calls in *. cbn [logs_by fold_left]. rewrite IH.
  destruct c as [path value|path str]; cbn [is_int_call is_str_call];
    unfold call_logged.
  - pose proof (do_call_int_logs path value s) as (_ & H2 & _). lia.
  - pose proof (do_call_str_logs path str s) as (_ & H2 & _). lia.
Qed.

(** X10.  Over any sequence of calls of [write_int] and [write_str], on
    any paths and however many opens fail: the calls of [write_int]
    together log at most one message, and none if its flag is already
    set; the calls of [write_str] together log at most one message, and
    none if its flag is already set; and every message in the log of
    system calls is one of these.  From the initial state each function
    logs at most once, so at most two messages are logged in all. *)
Theorem open_failure_logged_once (cs : list io_call) (s : io_state) :
  (logs_by is_int_call cs s <= (if (warned_int s =? 0)%Z then 1 else 0))%nat
  /\ (logs_by is_str_call cs s <= (if (warned_str s =? 0)%Z then 1 else 0))%nat
  /\ List.length (filter is_log (io_trace (do_calls cs s))) =
     (List.length (filter is_log (io_trace s))
      + logs_by is_int_call cs s + logs_by is_str_call cs s)%nat
  /\ forall o : os,
       (logs_by is_int_call cs (mk_io o 0 0 []) <= 1)%nat
       /\ (logs_by is_str_call cs (mk_io o 0 0 []) <= 1)%nat
       /\ (List.length
             (filter is_log (io_trace (do_calls cs (mk_io o 0 0 [])))) <= 2)%nat.
Proof using Type.
  pose proof (logs_by_int cs s) as Hi. pose proof (logs_by_str cs s) as Hs.
  pose proof (logs_by_total cs s) as Ht.
  unfold unwarned, log_count in *.
  repeat split; try lia.
  - pose proof (logs_by_int cs (mk_io o 0 0 [])) as H. unfold unwarned in H.
    cbn in H. lia.
  - pose proof (logs_by_str cs (mk_io o 0 0 [])) as H. unfold unwarned in H.
    cbn in H. lia.
  - pose proof (logs_by_int cs (mk_io o 0 0 [])) as H1.
    pose proof (logs_by_str cs (mk_io o 0 0 [])) as H2.
    pose proof (logs_by_total cs (mk_io o 0 0 [])) as H3.
    unfold unwarned, log_count in *. cbn in H1, H2, H3. lia.
Qed.

Lemma fd_ok_app (cur : option Z) (l1 l2 : list sys_event) :
  fd_ok cur l1 = true -> fd_ok cur (l1 ++ l2) = fd_ok None l2.
Proof.
  revert cur. induction l1 as [|e l1 IH]; intros cur H.
  - destruct cur; [discriminate|reflexivity].
  - destruct e as [path fd|fd buf amt|fd|msg]; cbn [fd_ok app] in *.
    + destruct cur; [discriminate|]. now apply IH.
    + destruct cur as [d|]; [|discriminate].
      apply andb_true_iff in H. destruct H as [H1 H2]. rewrite H1. cbn [andb].
      now apply IH.
    + destruct cur as [d|]; [|discriminate].
      apply andb_true_iff in H. destruct H as [H1 H2]. rewrite H1. cbn [andb].
      now apply IH.
    + now apply IH.
Qed.

Lemma do_call_fd_ok (s : io_state) (c : io_call) :
  fd_ok None (io_trace s) = true -> fd_ok None (io_trace (do_call s c)) = true.
Proof.
  intro H. destruct c as [path value|path str]; cbn [do_call].
  - unfold write_int_os.
    destruct (sys_open path (io_os s)) as [fd o1].
    destruct (0 <=? fd) eqn:E.
    + destruct (sys_write_fd fd (sprintf_d_nl value) o1) as [amt o2].
      cbn [snd io_trace]. rewrite (fd_ok_app _ _ _ H). cbn [fd_ok].
      now rewrite E, Z.eqb_refl.
    + destruct (warned_int s =? 0); cbn [snd io_trace];
        rewrite (fd_ok_app _ _ _ H); cbn [fd_ok]; now rewrite E.
  - unfold write_str_os.
    destruct (sys_open path (io_os s)) as [fd o1].
    destruct (0 <=? fd) eqn:E.
    + destruct (sys_write_fd fd str o1) as [amt o2].
      cbn [snd io_trace]. rewrite (fd_ok_app _ _ _ H). cbn [fd_ok].
      now rewrite E, Z.eqb_refl.
    + destruct (warned_str s =? 0); cbn [snd io_trace];
        rewrite (fd_ok_app _ _ _ H); cbn [fd_ok]; now rewrite E.
Qed.

(** X11.  Over any sequence of calls of [write_int] and [write_str], for
    any behaviour of the operating system: a descriptor is written and
    closed only after an [open] that returned it, every descriptor that
    was opened is closed before the function returns, also when the
    write fails, and after a failed [open] nothing is written or
    closed. *)
Theorem descriptors_closed (cs : list io_call) (s : io_state) :
  fd_ok None (io_trace s) = true ->
  fd_ok None (io_trace (do_calls cs s)) = true.
Proof using Type.
  revert s. induction cs as [|c cs IH]; intros s H; [exact H|].
  unfold do_calls in *. cbn [fold_left]. apply IH. now apply do_call_fd_ok.
Qed.

(** ** [open_lights] *)



(** ** The mutex for every pair of handlers *)

Lemma in_cs_inside (p : prog Z) : in_cs p -> inside p.
Proof.
  induction 1 as [k Hf|path payload k _ IH|q k _ IH|q v k _ IH].
  - apply inside_unlock. destruct Hf. apply outside_ret.
  - now apply inside_write.
  - now apply inside_get.
  - now apply inside_set.
Qed.

Lemma one_cs_outside (p : prog Z) : one_cs p -> outside p.
Proof. intros [k Hk]. apply outside_lock. now apply in_cs_inside. Qed.

Lemma set_light_outside (id : light_id) (st : light_state_t) :
  outside (set_light id st).
Proof.
  destruct id; try (apply one_cs_outside, set_light_one_cs; discriminate).
  cbn [set_light].
  unfold set_light_buttons, set_light_keyboard, pthread_mutex_lock,
    pthread_mutex_unlock, write_int. cbn [bind].
  apply outside_lock, inside_write. intro r. apply inside_unlock.
  destruct (0 <? rgb_to_brightness st); cbn [bind].
  - apply outside_lock, inside_write. intro r1. apply inside_unlock.
    apply outside_lock, inside_write. intro r2. apply inside_unlock.
    apply outside_ret.
  - apply outside_lock, inside_write. intro r2. apply inside_unlock.
    apply outside_ret.
Qed.

Lemma mutex_run_snoc (l : list (tid * event)) (e : tid * event) :
  mutex_run (l ++ [e]) = mutex_event (mutex_run l) e.
Proof. unfold mutex_run. now rewrite fold_left_app. Qed.

Lemma outside_inv (p : prog Z) :
  outside p -> (exists a, p = Ret a) \/ (exists k, p = Lock k /\ inside k).
Proof. intros [a|k Hk]; eauto. Qed.

Lemma inside_inv (p : prog Z) :
  inside p ->
  (exists k, p = Unlock k /\ outside k)
  \/ (exists path payload k, p = DevWrite path payload k /\ forall r, inside (k r))
  \/ (exists q k, p = GetLed q k /\ forall v, inside (k v))
  \/ (exists q v k, p = SetLed q v k /\ inside k).
Proof.
  intros [k Hk|path payload k Hk|q k Hk|q v k Hk]; eauto 10.
Qed.

Lemma neq_other (t : tid) : t <> other t.
Proof. now destruct t. Qed.

Lemma tid_neq_other (t u : tid) : u <> t -> u = other t.
Proof. destruct t, u; intro H; try reflexivity; now elim H. Qed.

Lemma excl_step (u : tid) (c c' : conf) :
  excl_inv c -> sched_step u c = Some c' -> excl_inv c'.
Proof.
  intros (Hin & Hout & Hrun) Hs.
  apply sched_step_inv in Hs as (q & s & Hts & Hq & Ho & Hshr).
  assert (Hother : forall v, v <> u -> thr c' v = thr c v).
  { intros v Hv. apply tid_neq_other in Hv. subst v. exact Ho. }
  destruct (owner (shr c)) as [x|] eqn:Eo.
  - destruct (tid_cases u x) as [-> | ->].
    + (* [u] holds the mutex *)
      destruct (inside_inv _ (Hin u eq_refl))
        as [(k & E & Hk)|[(pa & py & k & E & Hk)|[(sl & k & E & Hk)
                                                   |(sl & lv & k & E & Hk)]]];
        rewrite E in Hts; cbn [thread_step] in Hts.
      * rewrite Eo, tid_eqb_refl in Hts. injection Hts as <- <-.
        unfold excl_inv. rewrite Hshr. cbn [owner strace]. repeat split.
        -- discriminate.
        -- intros v _. destruct (tid_cases u v) as [-> | ->].
           ++ now rewrite Hq.
           ++ rewrite Ho. apply Hout. intro X. injection X. apply neq_other.
        -- rewrite mutex_run_snoc, Hrun. cbn. now rewrite tid_eqb_refl.
      * destruct (sys_write pa py (sworld (shr c))) as [r w].
        injection Hts as <- <-. unfold excl_inv. rewrite Hshr.
        cbn [owner strace]. rewrite Eo. repeat split.
        -- intros v Hv. injection Hv as <-. rewrite Hq. apply Hk.
        -- intros v Hv. rewrite Hother by congruence. apply Hout. congruence.
        -- rewrite mutex_run_snoc, Hrun. cbn. now rewrite tid_eqb_refl.
      * injection Hts as <- <-. unfold excl_inv. rewrite Hshr. rewrite Eo.
        repeat split.
        -- intros v Hv. injection Hv as <-. rewrite Hq. apply Hk.
        -- intros v Hv. rewrite Hother by congruence. apply Hout. congruence.
        -- exact Hrun.
      * injection Hts as <- <-. unfold excl_inv. rewrite Hshr.
        cbn [owner strace]. rewrite Eo. repeat split.
        -- intros v Hv. injection Hv as <-. now rewrite Hq.
        -- intros v Hv. rewrite Hother by congruence. apply Hout. congruence.
        -- exact Hrun.
    + (* the other thread holds the mutex: [u] waits or has returned *)
      exfalso.
      assert (Hu : outside (thr c u)).
      { apply Hout. intro X. injection X. apply other_neq. }
      destruct (outside_inv _ Hu) as [(a & E)|(k & E & Hk)];
        rewrite E in Hts; cbn [thread_step] in Hts; [discriminate|].
      rewrite Eo in Hts. discriminate.
  - (* the mutex is free *)
    assert (Hu : outside (thr c u)) by (apply Hout; discriminate).
    destruct (outside_inv _ Hu) as [(a & E)|(k & E & Hk)];
      rewrite E in Hts; cbn [thread_step] in Hts; [discriminate|].
    rewrite Eo in Hts. injection Hts as <- <-.
    unfold excl_inv. rewrite Hshr. cbn [owner strace]. repeat split.
    + intros v Hv. injection Hv as <-. now rewrite Hq.
    + intros v Hv. rewrite Hother by congruence. apply Hout. discriminate.
    + rewrite mutex_run_snoc, Hrun. reflexivity.
Qed.

Lemma excl_start (p1 p2 : prog Z) (g : leds) (w : world) :
  outside p1 -> outside p2 -> excl_inv (start p1 p2 g w).
Proof.
  intros H1 H2. unfold excl_inv, start. cbn [shr owner strace thr].
  repeat split; try discriminate. intros [] _; assumption.
Qed.

Lemma thread_step_events (u : tid) (p p' : prog Z) (s s' : shared) :
  thread_step u p s = Some (p', s') ->
  strace s' = strace s \/ exists e, strace s' = strace s ++ [(u, e)].
Proof.
  destruct p as [a|k|k|path payload k|q k|q v k]; cbn [thread_step]; intro H.
  - discriminate.
  - destruct (owner s); [discriminate|]. injection H as <- <-. right.
    now exists EvLock.
  - destruct (owner s) as [x|]; [|discriminate].
    destruct (tid_eqb x u); [|discriminate]. injection H as <- <-. right.
    now exists EvUnlock.
  - destruct (sys_write path payload (sworld s)) as [r w].
    injection H as <- <-. right. now exists (EvWrite path payload r).
  - injection H as <- <-. now left.
  - injection H as <- <-. now left.
Qed.

Lemma all_by_app (t : tid) (l1 l2 : list (tid * event)) :
  all_by t l1 -> all_by t l2 -> all_by t (l1 ++ l2).
Proof. intros H1 H2. apply Forall_app. now split. Qed.

Lemma contig_step (t u : tid) (c c' : conf) :
  excl_inv c -> contig_inv t c -> sched_step u c = Some c' -> contig_inv t c'.
Proof.
  intros (Hin & Hout & Hrun) (Hph & Htr) Hs.
  apply sched_step_inv in Hs as (q & s & Hts & Hq & Ho & Hshr).
  destruct (tid_cases t u) as [-> | ->].
  - (* the call itself moves *)
    unfold contig_inv. rewrite Hq, Hshr.
    destruct (phase_of (thr c t)) eqn:E; cbn [in_phase] in Hph.
    + destruct Hph as [k Hk]. cbn [thread_step] in Hts.
      destruct (owner (shr c)); [discriminate|]. injection Hts as <- <-.
      rewrite (in_phase_phase_of Inside k Hk). cbn [owner strace].
      split; [exact Hk|]. split; [reflexivity|].
      exists (strace (shr c)), [(t, EvLock)]. repeat split; auto.
      now repeat constructor.
    + destruct Htr as (Hown & pre & mid & Etr & Hpre & Hmid).
      destruct Hph as [k Hk|path payload k Hk|sl k Hk|sl lv k Hk];
        cbn [thread_step] in Hts.
      * rewrite Hown, tid_eqb_refl in Hts. injection Hts as <- <-.
        rewrite (in_phase_phase_of Done k Hk). cbn [strace].
        split; [exact Hk|].
        exists pre, (mid ++ [(t, EvUnlock)]), [].
        rewrite Etr, app_nil_r, <- app_assoc. repeat split; auto.
        -- now apply all_by_snoc.
        -- constructor.
      * destruct (sys_write path payload (sworld (shr c))) as [r w].
        injection Hts as <- <-.
        rewrite (in_phase_phase_of Inside (k r) (Hk r)). cbn [owner strace].
        split; [apply Hk|]. split; [exact Hown|].
        exists pre, (mid ++ [(t, EvWrite path payload r)]).
        rewrite Etr, <- app_assoc. repeat split; auto. now apply all_by_snoc.
      * injection Hts as <- <-.
        rewrite (in_phase_phase_of Inside _ (Hk (smem (shr c) sl))).
        split; [apply Hk|]. split; [exact Hown|]. now exists pre, mid.
      * injection Hts as <- <-.
        rewrite (in_phase_phase_of Inside k Hk). cbn [owner strace].
        split; [exact Hk|]. split; [exact Hown|]. now exists pre, mid.
    + destruct Hph as [a]. discriminate.
  - (* the other call moves *)
    rewrite other_other in Ho.
    pose proof (thread_step_events _ _ _ _ _ Hts) as Hev. rewrite <- Hshr in Hev.
    unfold contig_inv. rewrite Ho. split; [exact Hph|].
    destruct (phase_of (thr c t)) eqn:E.
    + destruct Hev as [-> | [e ->]]; [exact Htr|]. now apply all_by_snoc.
    + exfalso. destruct Htr as (Hown & _).
      assert (Hu : outside (thr c (other t))).
      { apply Hout. rewrite Hown. intro X. injection X. apply neq_other. }
      destruct (outside_inv _ Hu) as [(a & Ea)|(k & Ea & Hk)];
        rewrite Ea in Hts; cbn [thread_step] in Hts; [discriminate|].
      rewrite Hown in Hts. discriminate.
    + destruct Hev as [-> | [e ->]]; [exact Htr|].
      destruct Htr as (pre & mid & post & -> & Hpre & Hmid & Hpost).
      exists pre, mid, (post ++ [(other t, e)]).
      rewrite <- !app_assoc. repeat split; auto. now apply all_by_snoc.
Qed.

Lemma contig_start (t : tid) (c : conf) :
  one_cs (thr c t) -> strace (shr c) = [] -> contig_inv t c.
Proof.
  intros H Htr. unfold contig_inv. rewrite Htr.
  remember (thr c t) as p eqn:E. destruct H as [k Hk].
  cbn [phase_of in_phase]. split; [now constructor|]. constructor.
Qed.

Lemma contig_inv_contiguous (t : tid) (c : conf) :
  contig_inv t c -> contiguous t (strace (shr c)).
Proof.
  intros (_ & H). destruct (phase_of (thr c t)).
  - exists (strace (shr c)), [], []. rewrite !app_nil_r.
    repeat split; auto; constructor.
  - destruct H as (_ & pre & mid & -> & Hpre & Hmid).
    exists pre, mid, []. rewrite app_nil_r. repeat split; auto. constructor.
  - exact H.
Qed.

(** While no [open_lights] re-initialises the mutex, both invariants
    hold along every schedule. *)
Lemma exec_open_excl (acts : list action) (c c' : conf) :
  no_reinit acts = true -> excl_inv c -> exec_open acts c = Some c' ->
  excl_inv c'.
Proof.
  revert c. induction acts as [|a rest IH]; intros c Hn Hi He.
  - now injection He as <-.
  - cbn [no_reinit forallb] in Hn. apply andb_true_iff in Hn as [Ha Hn].
    destruct a as [u|]; [|discriminate]. cbn [exec_open act_step] in He.
    destruct (sched_step u c) as [c1|] eqn:Es; [|discriminate].
    apply (IH c1); auto. eapply excl_step; eauto.
Qed.

Lemma exec_open_contig (t : tid) (acts : list action) (c c' : conf) :
  no_reinit acts = true -> excl_inv c -> contig_inv t c ->
  exec_open acts c = Some c' -> contig_inv t c'.
Proof.
  revert c. induction acts as [|a rest IH]; intros c Hn Hi Hc He.
  - now injection He as <-.
  - cbn [no_reinit forallb] in Hn. apply andb_true_iff in Hn as [Ha Hn].
    destruct a as [u|]; [|discriminate]. cbn [exec_open act_step] in He.
    destruct (sched_step u c) as [c1|] eqn:Es; [|discriminate].
    apply (IH c1); auto.
    + eapply excl_step; eauto.
    + eapply contig_step; eauto.
Qed.

Lemma exec_open_runs (acts : list action) (c : conf) :
  no_reinit acts = true ->
  exec_open acts c =
  exec (map (fun a => match a with Run t => t | Reinit => T1 end) acts) c.
Proof.
  revert c. induction acts as [|a rest IH]; intros c Hn; [reflexivity|].
  cbn [no_reinit forallb] in Hn. apply andb_true_iff in Hn as [Ha Hn].
  destruct a as [u|]; [|discriminate]. cbn [exec_open act_step map exec].
  destruct (sched_step u c); [now apply IH|reflexivity].
Qed.

(** C9, as amended.  While no [open_lights] re-initialises the mutex
    during the calls, for any two concurrent handler calls, buttons
    included, under any schedule: every event fits the mutex (a lock is
    taken only when the mutex is free, a device write or an unlock is
    made only by the call that holds it), and the events of a backlight,
    keyboard, battery or notifications call are one block of the trace,
    never split by an event of the other call, whichever handler that
    is; when neither call is a buttons call, all events of one call come
    before all events of the other.  Such a call is one critical
    section: it locks first, makes every record access and every device
    write with the mutex held, and unlocks before it returns on every
    path.  In every handler,
    [set_light_buttons] included, each device write is made with the
    mutex held and the mutex is free when the call returns. *)
Theorem lock_discipline
    (id1 id2 : light_id) (st1 st2 : light_state_t)
    (g : leds) (w : world) (acts : list action) :
  no_reinit acts = true ->
  match
    exec_open acts (start (set_light id1 st1) (set_light id2 st2) g w)
  with
  | Some c =>
      mutex_run (strace (shr c)) = Some (owner (shr c))
      /\ (id1 <> BUTTONS -> contiguous T1 (strace (shr c)))
      /\ (id2 <> BUTTONS -> contiguous T2 (strace (shr c)))
      /\ (id1 <> BUTTONS -> id2 <> BUTTONS -> serial (strace (shr c)))
  | None => True
  end
  /\ (id1 <> BUTTONS -> one_cs (set_light id1 st1))
  /\ (forall (id : light_id) (st : light_state_t) (m : machine),
        exists evs,
          trace (snd (run (set_light id st) m)) = trace m ++ evs
          /\ lock_ok false evs = true).
Proof using Type.
  intro Hn. split; [|split; [apply set_light_one_cs|apply set_light_lock_ok]].
  destruct (exec_open acts _) as [c|] eqn:E; [|exact I].
  pose proof (excl_start _ _ g w (set_light_outside id1 st1)
                (set_light_outside id2 st2)) as H0.
  split; [apply (exec_open_excl _ _ _ Hn H0 E)|].
  split; [|split]; intro Hid.
  - apply contig_inv_contiguous.
    apply (exec_open_contig T1 _ _ _ Hn H0); [|exact E].
    apply contig_start; [|reflexivity]. cbn [thr start thr1].
    now apply set_light_one_cs.
  - apply contig_inv_contiguous.
    apply (exec_open_contig T2 _ _ _ Hn H0); [|exact E].
    apply contig_start; [|reflexivity]. cbn [thr start thr2].
    now apply set_light_one_cs.
  - intro Hid2. rewrite exec_open_runs in E by exact Hn.
    eapply one_cs_serial; [| |exact E]; now apply set_light_one_cs.
Qed.

End Lights.

Arguments mk_machine {world} mem sysfs trace.
Arguments mem {world} m.
Arguments sysfs {world} m.
Arguments trace {world} m.
Arguments run {world} sys_write {A} p m.
Arguments exec {world} sys_write sched c.
Arguments start {world} p1 p2 g w.
Arguments shr {world} c.
Arguments strace {world} s.
Arguments mach {world} s.
Arguments thr1 {world} c.
Arguments thr2 {world} c.
Arguments mk_io {os} io_os warned_int warned_str io_trace.
Arguments io_trace {os} i.
Arguments exec_open {world} sys_write acts c.
Arguments owner {world} s.

(** ** The handlers on concrete requests

    Android's values of the header constants: [PATH_MAX = 4096],
    [LIGHT_FLASH_NONE = 0], [LIGHT_FLASH_TIMED = 1]. *)

(** Pure red, no flash, nothing else lit: the red LED is steady on, the
    blue LED is off. *)
Example battery_pure_red :
  let '(res, m) :=
    run always_ok (set_light_battery 4096 0 1 (mk_light_state 0xFF0000 0 0 0))
        (mk_machine leds_init tt []) in
  res = 0
  /\ mem m battery_red = mk_led_state 1 0 0
  /\ mem m battery_blue = mk_led_state 0 0 0
  /\ trace m =
     [ EvLock;
       EvWrite "/sys/class/leds/red/trigger" "none" 0;
       EvWrite "/sys/class/leds/red/brightness" "255" 0;
       EvWrite "/sys/class/leds/blue/trigger" "none" 0;
       EvWrite "/sys/class/leds/blue/brightness" "0" 0;
       EvUnlock ].
Proof. vm_compute. repeat split. Qed.

(** A blue notification blinking 500/500 while the battery holds the red
    LED steady: blue blinks, red falls back to the battery record. *)
Example notifications_blue_blink :
  let '(res, m) :=
    run always_ok
        (set_light_notifications 4096 0 1 (mk_light_state 0x0000FF 1 500 500))
        (mk_machine (leds_set leds_init battery_red (mk_led_state 1 0 0)) tt [])
  in
  res = 0
  /\ trace m =
     [ EvLock;
       EvWrite "/sys/class/leds/red/trigger" "none" 0;
       EvWrite "/sys/class/leds/red/brightness" "255" 0;
       EvWrite "/sys/class/leds/blue/trigger" "notification" 0;
       EvWrite "/sys/class/leds/blue/brightness" "255" 0;
       EvWrite "/sys/class/leds/blue/blink_count" "1" 0;
       EvWrite "/sys/class/leds/blue/delay_on" (sprintf_d_nl 500) 0;
       EvWrite "/sys/class/leds/blue/delay_off" (sprintf_d_nl 500) 0;
       EvUnlock ].
Proof. vm_compute. repeat split. Qed.

(** A failing write on the red LED (EACCES) ends the call: the blue LED
    is not touched and the code is returned. *)
Example notifications_red_fails :
  let '(res, m) :=
    run (fail_on "/sys/class/leds/red/brightness" 13)
        (set_light_notifications 4096 0 1 (mk_light_state 0x0000FF 1 500 500))
        (mk_machine leds_init tt [])
  in
  res = -13
  /\ trace m =
     [ EvLock;
       EvWrite "/sys/class/leds/red/trigger" "none" 0;
       EvWrite "/sys/class/leds/red/brightness" "0" (-13);
       EvUnlock ].
Proof. vm_compute. repeat split. Qed.

(** The buttons handler with black: keyboard code 2, no voltage write,
    flag 0; the failure of the keyboard write is not returned. *)
Example buttons_black :
  let '(res, m) :=
    run (fail_on KEYBOARD_FILE 2) (set_light_buttons (mk_light_state 0 0 0 0))
        (mk_machine leds_init tt [])
  in
  res = 0
  /\ trace m =
     [ EvLock; EvWrite KEYBOARD_FILE (sprintf_d_nl 2) (-2); EvUnlock;
       EvLock; EvWrite BUTTONS_FILE (sprintf_d_nl 0) 0; EvUnlock ].
Proof. vm_compute. repeat split. Qed.

(** ** Instances *)

Lemma select_state_priority_witness :
  let m := mk_machine demo_leds tt [] in
  enabled (mem m notifications_red) <> 0
  /\ fst (run always_ok (select_state battery_red notifications_red) m)
     = Some notifications_red.
Proof.
  cbv zeta.
  assert (H : enabled (mem (mk_machine demo_leds tt []) notifications_red) <> 0)
    by (cbn; lia).
  split; [exact H|].
  exact (proj1 (select_state_priority unit always_ok battery_red notifications_red
                  (mk_machine demo_leds tt [])) H).
Defined.

Lemma comp_led_states_spec_witness :
  let st := mk_light_state 0x00FF0000 1 500 300 in
  let m' :=
    snd (run always_ok (comp_led_states 0 1 battery_red battery_blue st)
             (mk_machine leds_init tt [])) in
  battery_red <> battery_blue
  /\ (delay_on (mem m' battery_red), delay_off (mem m' battery_red)) = (500, 300)
  /\ (delay_on (mem m' battery_blue), delay_off (mem m' battery_blue)) = (500, 300)
  /\ enabled (mem m' battery_red) = 1
  /\ enabled (mem m' battery_blue) = 0.
Proof.
  cbv zeta.
  assert (H : battery_red <> battery_blue) by discriminate.
  split; [exact H|].
  pose proof (comp_led_states_spec 0 1 unit always_ok battery_red battery_blue
                (mk_light_state 0x00FF0000 1 500 300)
                (mk_machine leds_init tt []) H) as (A & B & C & D & _).
  split; [exact A|]. split; [exact B|]. split; [exact C|exact D].
Defined.


(** C5, the claim as stated fails: a timed request with an on-time and no
    off-time is stored as it is, one delay positive and the other zero. *)
Lemma recomputed_delays_mixed :
  let st := mk_light_state 0x00FF0000 1 500 0 in
  let m' :=
    snd (run always_ok (set_light_battery 4096 0 1 st)
             (mk_machine leds_init tt [])) in
  0 <= flashOnMS st /\ 0 <= flashOffMS st
  /\ mem m' battery_red = mk_led_state 1 500 0
  /\ ~ delays_unmixed (mem m' battery_red).
Proof.
  cbv zeta. split; [cbn; lia|]. split; [cbn; lia|].
  assert (E : mem (snd (run always_ok
                          (set_light_battery 4096 0 1
                             (mk_light_state 0x00FF0000 1 500 0))
                          (mk_machine leds_init tt []))) battery_red
              = mk_led_state 1 500 0) by (vm_compute; reflexivity).
  split; [exact E|]. rewrite E. unfold delays_unmixed. cbn. lia.
Qed.

Lemma recomputed_delays_unmixed_witness :
  let st := mk_light_state 0x00FF0000 1 500 300 in
  let m := mk_machine demo_leds tt [] in
  (0 <= flashOnMS st /\ 0 <= flashOffMS st
   /\ (flashMode st = 1 -> (flashOnMS st = 0 <-> flashOffMS st = 0)))
  /\ (delays_unmixed
        (mem (snd (run always_ok (set_light_battery 4096 0 1 st) m)) battery_red)
     /\ delays_unmixed
          (mem (snd (run always_ok (set_light_battery 4096 0 1 st) m))
               battery_blue)).
Proof.
  cbv zeta.
  assert (H1 : 0 <= flashOnMS (mk_light_state 0x00FF0000 1 500 300))
    by (cbn; lia).
  assert (H2 : 0 <= flashOffMS (mk_light_state 0x00FF0000 1 500 300))
    by (cbn; lia).
  assert (H3 : flashMode (mk_light_state 0x00FF0000 1 500 300) = 1 ->
               (flashOnMS (mk_light_state 0x00FF0000 1 500 300) = 0 <->
                flashOffMS (mk_light_state 0x00FF0000 1 500 300) = 0))
    by (cbn; lia).
  split; [auto|].
  exact (proj1 (recomputed_delays_unmixed 4096 0 1 unit always_ok
                  (mk_light_state 0x00FF0000 1 500 300)
                  (mk_machine demo_leds tt []) H1 H2 H3)).
Defined.

(** C9, the claim as stated fails: [set_light_buttons] is not one
    critical section, and two concurrent buttons calls can interleave.
    Below, the call for white writes the keyboard control and the
    touch-key voltage, the call for black then runs from start to end,
    and the call for white writes the buttons flag last: the writes to
    the two touch-key controls are by the first call, the second, and the
    first again, and the keyboard is left off with the buttons on. *)
Lemma buttons_calls_interleave :
  let white := mk_light_state 0x00FFFFFF 0 0 0 in
  let black := mk_light_state 0 0 0 0 in
  let on_touch_keys := fun e : tid * event =>
    match snd e with
    | EvWrite path _ _ =>
        (String.eqb path BRIGHTNESS_FILE || String.eqb path BUTTONS_FILE)%bool
    | _ => false
    end in
  ~ one_cs (set_light 4096 0 1 BUTTONS white)
  /\ match
       exec always_ok (repeat T1 6 ++ repeat T2 6 ++ repeat T1 3)
            (start (set_light 4096 0 1 BUTTONS white)
                   (set_light 4096 0 1 BUTTONS black) leds_init tt)
     with
     | Some c =>
         strace (shr c) =
         [ (T1, EvLock); (T1, EvWrite KEYBOARD_FILE (sprintf_d_nl 1) 0);
           (T1, EvUnlock);
           (T1, EvLock); (T1, EvWrite BRIGHTNESS_FILE (sprintf_d_nl 255) 0);
           (T1, EvUnlock);
           (T2, EvLock); (T2, EvWrite KEYBOARD_FILE (sprintf_d_nl 2) 0);
           (T2, EvUnlock);
           (T2, EvLock); (T2, EvWrite BUTTONS_FILE (sprintf_d_nl 0) 0);
           (T2, EvUnlock);
           (T1, EvLock); (T1, EvWrite BUTTONS_FILE (sprintf_d_nl 1) 0);
           (T1, EvUnlock) ]
         /\ map fst (filter on_touch_keys (strace (shr c))) = [T1; T2; T1]
         /\ ~ serial (strace (shr c))
         /\ thr1 c = Ret 0 /\ thr2 c = Ret 0
     | None => False
     end.
Proof.
  cbv zeta. split; [apply set_light_buttons_not_one_cs|].
  match goal with
  | |- match ?e with Some _ => _ | None => _ end =>
      assert (E : exists c,
                 e = Some c
                 /\ strace (shr c) =
                    [ (T1, EvLock);
                      (T1, EvWrite KEYBOARD_FILE (sprintf_d_nl 1) 0);
                      (T1, EvUnlock);
                      (T1, EvLock);
                      (T1, EvWrite BRIGHTNESS_FILE (sprintf_d_nl 255) 0);
                      (T1, EvUnlock);
                      (T2, EvLock);
                      (T2, EvWrite KEYBOARD_FILE (sprintf_d_nl 2) 0);
                      (T2, EvUnlock);
                      (T2, EvLock);
                      (T2, EvWrite BUTTONS_FILE (sprintf_d_nl 0) 0);
                      (T2, EvUnlock);
                      (T1, EvLock);
                      (T1, EvWrite BUTTONS_FILE (sprintf_d_nl 1) 0);
                      (T1, EvUnlock) ]
                 /\ thr1 c = Ret 0 /\ thr2 c = Ret 0)
        by (vm_compute; eexists; repeat split);
      destruct E as (c & -> & E & E1 & E2)
  end.
  rewrite E. split; [reflexivity|]. split; [reflexivity|].
  split; [|now split].
  intros [H|H]; apply ordered_orderedb in H; vm_compute in H; discriminate.
Qed.

Lemma lock_discipline_witness :
  let battery :=
    set_light 4096 0 1 BATTERY (mk_light_state 0x00FF0000 1 500 500) in
  let buttons := set_light 4096 0 1 BUTTONS (mk_light_state 0x00FFFFFF 0 0 0) in
  let acts := map Run (repeat T2 3 ++ repeat T1 16 ++ repeat T2 6) in
  no_reinit acts = true
  /\ (match exec_open always_ok acts (start battery buttons leds_init tt) with
      | Some c =>
          mutex_run (strace (shr c)) = Some (owner (shr c))
          /\ (BATTERY <> BUTTONS -> contiguous T1 (strace (shr c)))
          /\ (BUTTONS <> BUTTONS -> contiguous T2 (strace (shr c)))
          /\ (BATTERY <> BUTTONS -> BUTTONS <> BUTTONS ->
              serial (strace (shr c)))
      | None => True
      end
      /\ (BATTERY <> BUTTONS -> one_cs battery)
      /\ (forall (id : light_id) (st : light_state_t) (m : machine unit),
            exists evs,
              trace (snd (run always_ok (set_light 4096 0 1 id st) m))
              = (trace m ++ evs)%list
              /\ lock_ok false evs = true)).
Proof.
  cbv zeta.
  assert (H : no_reinit (map Run (repeat T2 3 ++ repeat T1 16 ++ repeat T2 6))
              = true) by reflexivity.
  split; [exact H|].
  exact (lock_discipline 4096 0 1 unit always_ok BATTERY BUTTONS
           (mk_light_state 0x00FF0000 1 500 500)
           (mk_light_state 0x00FFFFFF 0 0 0) leds_init tt
           (map Run (repeat T2 3 ++ repeat T1 16 ++ repeat T2 6)) H).
Defined.

(** The schedule of the instance above is a run to the end of both
    calls, and the battery call is the middle block of its events. *)
Example battery_between_buttons_writes :
  match
    exec_open always_ok
      (map Run (repeat T2 3 ++ repeat T1 16 ++ repeat T2 6))
      (start (set_light 4096 0 1 BATTERY (mk_light_state 0x00FF0000 1 500 500))
             (set_light 4096 0 1 BUTTONS (mk_light_state 0x00FFFFFF 0 0 0))
             leds_init tt)
  with
  | Some c =>
      map fst (strace (shr c)) =
      (repeat T2 3 ++ repeat T1 9 ++ repeat T2 6)%list
      /\ thr1 c = Ret 0 /\ thr2 c = Ret 0
  | None => False
  end.
Proof. vm_compute. repeat split. Qed.

(** The condition on [open_lights] is needed.  Here the mutex is
    re-initialised after the first two writes of a battery call: a
    notifications call then takes the mutex and runs to its end, and the
    battery call goes on writing.  The events no longer fit the mutex,
    and the red LED gets two writes of the battery call, the five of the
    notifications call, and then the next write of the battery call. *)
Lemma reinit_lets_second_call_in :
  match
    exec_open always_ok
      (map Run (repeat T1 8) ++ [Reinit] ++ map Run (repeat T2 15) ++ [Run T1])%list
      (start
         (set_light 4096 0 1 BATTERY (mk_light_state 0x00FF0000 1 500 500))
         (set_light 4096 0 1 NOTIFICATIONS (mk_light_state 0x00FF0000 1 300 200))
         leds_init tt)
  with
  | Some c =>
      map fst (strace (shr c)) = (repeat T1 3 ++ repeat T2 9 ++ [T1])%list
      /\ nth_error (strace (shr c)) 2
         = Some (T1, EvWrite "/sys/class/leds/red/brightness" "255" 0)
      /\ nth_error (strace (shr c)) 4
         = Some (T2, EvWrite "/sys/class/leds/red/trigger" "notification" 0)
      /\ nth_error (strace (shr c)) 12
         = Some (T1, EvWrite "/sys/class/leds/red/blink_count" "1" 0)
      /\ mutex_run (strace (shr c)) = None
  | None => False
  end.
Proof. vm_compute. repeat split. Qed.

(** ** More runs on concrete requests *)

(** Two opens that fail on two different paths: only the first is
    logged. *)
Example write_int_second_failure_silent :
  io_trace
    (do_calls Z (demo_open ["/a"; "/b"]) demo_write_fd demo_close demo_errno
              demo_log [CallInt "/a" 1; CallInt "/b" 2] (mk_io 0 0 0 []))
  = [ SysOpen "/a" (-1);
      SysLog ("write_int failed to open /a" ++ String "010"%char "")%string;
      SysOpen "/b" (-1) ].
Proof. reflexivity. Qed.

(** A write that is short by one byte is reported as a success. *)
Example write_str_short_write :
  fst (write_str_os Z (demo_open []) demo_write_fd demo_close demo_errno
                    demo_log "/sys/class/leds/red/trigger" "notification"
                    (mk_io 0 0 0 []))
  = 0.
Proof. reflexivity. Qed.

(** ** More instances *)

Lemma set_led_steady_witness :
  let m := mk_machine (leds_set leds_init battery_red (mk_led_state 1 500 0))
                      tt [] in
  (winner_of (mem m battery_red) (mem m notifications_red)
   = Some (mk_led_state 1 500 0)
   /\ ~ (0 < delay_on (mk_led_state 1 500 0)
         /\ 0 < delay_off (mk_led_state 1 500 0)))
  /\ run always_ok (set_led 4096 RED_LED_DIR battery_red notifications_red) m
     = (0, mk_machine (mem m) tt
             [ EvWrite "/sys/class/leds/red/trigger" "none" 0;
               EvWrite "/sys/class/leds/red/brightness" "255" 0 ]).
Proof.
  cbv zeta.
  assert (H1 : winner_of
                 (mem (mk_machine
                         (leds_set leds_init battery_red (mk_led_state 1 500 0))
                         tt []) battery_red)
                 (mem (mk_machine
                         (leds_set leds_init battery_red (mk_led_state 1 500 0))
                         tt []) notifications_red)
               = Some (mk_led_state 1 500 0)) by reflexivity.
  assert (H2 : ~ (0 < delay_on (mk_led_state 1 500 0)
                  /\ 0 < delay_off (mk_led_state 1 500 0)))
    by (cbn; lia).
  split; [now split|].
  exact (set_led_steady 4096 unit always_ok RED_LED_DIR battery_red
           notifications_red
           (mk_machine (leds_set leds_init battery_red (mk_led_state 1 500 0))
                       tt [])
           (mk_led_state 1 500 0) H1 H2).
Defined.

Lemma notifications_clear_restores_battery_witness :
  let st_b := mk_light_state 0x00FF0000 1 500 500 in
  let st_n := mk_light_state 0x0000FF00 0 0 0 in
  let m1 :=
    snd (run always_ok (set_light_battery 4096 0 1 st_b)
             (mk_machine leds_init tt [])) in
  let shown := fun s : led_state => if enabled s =? 0 then None else Some s in
  (color st_n / 2 ^ 16 mod 2 ^ 8 = 0 /\ color st_n mod 2 ^ 8 = 0)
  /\ let '(r, w, evs) :=
       write_both unit always_ok
         (arbiter_plan 4096 RED_LED_DIR (shown (recomputed_red 0 1 st_b)))
         (arbiter_plan 4096 BLUE_LED_DIR (shown (recomputed_blue 0 1 st_b)))
         (sysfs m1) in
     let '(res, m2) := run always_ok (set_light_notifications 4096 0 1 st_n) m1 in
     res = r /\ sysfs m2 = w
     /\ trace m2 = (trace m1 ++ [EvLock] ++ evs ++ [EvUnlock])%list
     /\ mem m2 battery_red = recomputed_red 0 1 st_b
     /\ mem m2 battery_blue = recomputed_blue 0 1 st_b.
Proof.
  cbv zeta.
  assert (H1 : color (mk_light_state 0x0000FF00 0 0 0) / 2 ^ 16 mod 2 ^ 8 = 0)
    by reflexivity.
  assert (H2 : color (mk_light_state 0x0000FF00 0 0 0) mod 2 ^ 8 = 0)
    by reflexivity.
  split; [now split|].
  exact (notifications_clear_restores_battery 4096 0 1 unit always_ok
           (mk_light_state 0x00FF0000 1 500 500)
           (mk_light_state 0x0000FF00 0 0 0)
           (mk_machine leds_init tt []) H1 H2).
Defined.

Lemma set_light_battery_under_notifications_witness :
  let m :=
    mk_machine
      (leds_set (leds_set leds_init notifications_red (mk_led_state 1 500 500))
                notifications_blue (mk_led_state 1 0 0)) tt [] in
  let st := mk_light_state 0x00FF00FF 1 100 100 in
  (enabled (mem m notifications_red) <> 0
   /\ enabled (mem m notifications_blue) <> 0)
  /\ let '(r, w, evs) :=
       write_both unit always_ok
         (arbiter_plan 4096 RED_LED_DIR (Some (mem m notifications_red)))
         (arbiter_plan 4096 BLUE_LED_DIR (Some (mem m notifications_blue)))
         (sysfs m) in
     let '(res, m') := run always_ok (set_light_battery 4096 0 1 st) m in
     res = r /\ sysfs m' = w
     /\ trace m' = (trace m ++ [EvLock] ++ evs ++ [EvUnlock])%list
     /\ mem m' battery_red = recomputed_red 0 1 st
     /\ mem m' battery_blue = recomputed_blue 0 1 st.
Proof.
  cbv zeta.
  set (m := mk_machine
              (leds_set
                 (leds_set leds_init notifications_red (mk_led_state 1 500 500))
                 notifications_blue (mk_led_state 1 0 0)) tt []).
  assert (H1 : enabled (mem m notifications_red) <> 0) by (cbn; lia).
  assert (H2 : enabled (mem m notifications_blue) <> 0) by (cbn; lia).
  split; [now split|].
  exact (set_light_battery_under_notifications 4096 0 1 unit always_ok
           (mk_light_state 0x00FF00FF 1 100 100) m H1 H2).
Defined.

(** The two instances above, run: the green notification gives the red
    LED back to the blinking battery request, and a battery request
    under two notifications writes the notifications patterns. *)
Example notifications_green_after_battery_red :
  let m1 :=
    snd (run always_ok
             (set_light_battery 4096 0 1 (mk_light_state 0x00FF0000 1 500 500))
             (mk_machine leds_init tt [])) in
  trace (snd (run always_ok
                  (set_light_notifications 4096 0 1
                     (mk_light_state 0x0000FF00 0 0 0)) m1))
  = (trace m1 ++
     [ EvLock;
       EvWrite "/sys/class/leds/red/trigger" "notification" 0;
       EvWrite "/sys/class/leds/red/brightness" "255" 0;
       EvWrite "/sys/class/leds/red/blink_count" "1" 0;
       EvWrite "/sys/class/leds/red/delay_on" (sprintf_d_nl 500) 0;
       EvWrite "/sys/class/leds/red/delay_off" (sprintf_d_nl 500) 0;
       EvWrite "/sys/class/leds/blue/trigger" "none" 0;
       EvWrite "/sys/class/leds/blue/brightness" "0" 0;
       EvUnlock ])%list.
Proof. vm_compute. reflexivity. Qed.

Lemma concurrent_calls_serializable_witness :
  let p1 := set_light 4096 0 1 BATTERY (mk_light_state 0x00FF0000 1 500 500) in
  let p2 :=
    set_light 4096 0 1 NOTIFICATIONS (mk_light_state 0x000000FF 1 300 200) in
  (BATTERY <> BUTTONS /\ NOTIFICATIONS <> BUTTONS)
  /\ match
       exec always_ok (repeat T1 16 ++ repeat T2 19)
            (start p1 p2 leds_init tt)
     with
     | Some c =>
         (finished (thr1 c) /\ finished (thr2 c))
         /\ ((let '(a, m1) := run always_ok p1 (mk_machine leds_init tt []) in
              let '(b, m2) := run always_ok p2 m1 in
              thr1 c = Ret a /\ thr2 c = Ret b /\ mach (shr c) = m2)
             \/ (let '(b, m1) := run always_ok p2 (mk_machine leds_init tt []) in
                 let '(a, m2) := run always_ok p1 m1 in
                 thr1 c = Ret a /\ thr2 c = Ret b /\ mach (shr c) = m2))
     | None => False
     end.
Proof.
  cbv zeta.
  assert (H1 : BATTERY <> BUTTONS) by discriminate.
  assert (H2 : NOTIFICATIONS <> BUTTONS) by discriminate.
  split; [now split|].
  pose proof (concurrent_calls_serializable 4096 0 1 unit always_ok
                BATTERY NOTIFICATIONS
                (mk_light_state 0x00FF0000 1 500 500)
                (mk_light_state 0x000000FF 1 300 200)
                leds_init tt (repeat T1 16 ++ repeat T2 19) H1 H2) as H.
  match type of H with
  | match ?e with Some _ => _ | None => _ end =>
      assert (E : exists c, e = Some c /\ thr1 c = Ret 0 /\ thr2 c = Ret 0)
        by (vm_compute; eexists; repeat split);
      destruct E as (c & E & E1 & E2); rewrite E in H |- *
  end.
  assert (F1 : finished (thr1 c)) by (rewrite E1; constructor).
  assert (F2 : finished (thr2 c)) by (rewrite E2; constructor).
  split; [now split|]. exact (H F1 F2).
Defined.

Lemma descriptors_closed_witness :
  fd_ok None (io_trace (mk_io 0 0 0 [])) = true
  /\ fd_ok None
       (io_trace
          (do_calls Z (demo_open ["/missing"]) demo_write_fd demo_close
                    demo_errno demo_log
                    [ CallStr "/sys/class/leds/red/trigger" "none";
                      CallInt "/missing" 5;
                      CallInt "/sys/class/leds/red/delay_on" 500 ]
                    (mk_io 0 0 0 [])))
     = true.
Proof.
  assert (H : fd_ok None (io_trace (mk_io 0 0 0 [])) = true) by reflexivity.
  split; [exact H|].
  exact (descriptors_closed Z (demo_open ["/missing"]) demo_write_fd demo_close
           demo_errno demo_log
           [ CallStr "/sys/class/leds/red/trigger" "none";
             CallInt "/missing" 5;
             CallInt "/sys/class/leds/red/delay_on" 500 ]
           (mk_io 0 0 0 []) H).
Defined.


